(** * The SQL agent of the backend: its message graph and the query endpoint

    A shallow embedding of [src/sql_agent.py] (the graph built by
    [create_sql_agent]) and of the part of [src/main.py] that reads the
    agent's result ([query_database]).

    The language model, the data source and the source of fresh
    identifiers are external to the repository: they are the variables
    of the section below.  The graph library's message reducer and tool
    node are modelled after their documented behaviour. *)

From stdpp Require Import base list strings gmap pretty.

(** ** Messages *)

(** A tool call as the message library has it: a name, a dictionary of
    arguments and the identifier that its tool result must repeat. *)
Record tool_call := ToolCall {
  tc_name : string;
  tc_args : gmap string string;
  tc_id : string;
}.

(** The message classes that occur.  A dictionary [{"role": r, "content": c}]
    is coerced to the class of its role, without identifier.  [msg_id] is
    the field [id] of a message; [None] is Python's [None]. *)
Inductive message :=
| SystemMessage (content : string) (id : option string)
| HumanMessage (content : string) (id : option string)
| AIMessage (content : string) (tool_calls : list tool_call) (id : option string)
| ToolMessage (content : string) (name : string) (tool_call_id : string)
              (id : option string).

Definition msg_id (m : message) : option string :=
  match m with
  | SystemMessage _ i | HumanMessage _ i | AIMessage _ _ i
  | ToolMessage _ _ _ i => i
  end.

Definition set_id (i : option string) (m : message) : message :=
  match m with
  | SystemMessage c _ => SystemMessage c i
  | HumanMessage c _ => HumanMessage c i
  | AIMessage c tcs _ => AIMessage c tcs i
  | ToolMessage c n t _ => ToolMessage c n t i
  end.

Definition msg_content (m : message) : string :=
  match m with
  | SystemMessage c _ | HumanMessage c _ | AIMessage c _ _
  | ToolMessage c _ _ _ => c
  end.

(** [getattr(m, "tool_calls")]: only an [AIMessage] has the attribute. *)
Definition msg_tool_calls (m : message) : option (list tool_call) :=
  match m with
  | AIMessage _ tcs _ => Some tcs
  | _ => None
  end.

#[global] Instance tool_call_eq_dec : EqDecision tool_call.
Proof. solve_decision. Defined.

#[global] Instance message_eq_dec : EqDecision message.
Proof. solve_decision. Defined.

(** ** The message reducer of the graph state

    [MessagesState] keeps one key, [messages], merged by the graph
    library's [add_messages]: messages without identifier get a fresh
    one, a new message whose identifier is already in the history
    replaces that entry in place, any other is appended.  (Removal
    messages are never created by this repository.) *)

Section Reducer.
(** The successive results of [uuid.uuid4()], as strings. *)
Variable uuid4 : nat → string.

(** [for m in ms: if m.id is None: m.id = str(uuid.uuid4())], with the
    number of identifiers drawn so far threaded through. *)
Fixpoint assign_ids (n : nat) (ms : list message) : nat * list message :=
  match ms with
  | [] => (n, [])
  | m :: ms' =>
      match msg_id m with
      | Some _ => let '(n', r) := assign_ids n ms' in (n', m :: r)
      | None =>
          let '(n', r) := assign_ids (S n) ms' in
          (n', set_id (Some (uuid4 n)) m :: r)
      end
  end.

(** [{m.id: i for i, m in enumerate(left)}]: a later entry overwrites an
    earlier one with the same identifier. *)
Fixpoint index_ids (k : nat) (left : list message)
    (d : gmap (option string) nat) : gmap (option string) nat :=
  match left with
  | [] => d
  | m :: l => index_ids (S k) l (<[msg_id m := k]> d)
  end.

(** One turn of [for m in right]. *)
Definition merge_one (idx : gmap (option string) nat)
    (merged : list message) (m : message) : list message :=
  match idx !! msg_id m with
  | Some k => <[k := m]> merged
  | None => merged ++ [m]
  end.

Definition add_messages (n : nat) (left right : list message)
    : nat * list message :=
  let '(n1, left') := assign_ids n left in
  let '(n2, right') := assign_ids n1 right in
  (n2, foldl (merge_one (index_ids 0 left' ∅)) left' right').
End Reducer.

(** ** The collaborators: language model and data source *)

(** What a chat model bound to tools receives: the names of the bound
    tools, the [tool_choice] argument and the messages. *)
Record llm_request := LlmRequest {
  req_tools : list string;
  req_tool_choice : option string;
  req_messages : list message;
}.

(** What it answers: the text and the tool calls of the [AIMessage]. *)
Record llm_reply := LlmReply {
  reply_content : string;
  reply_tool_calls : list tool_call;
}.

(** The outcome of running a statement on the data source. *)
Inductive sql_result :=
| Rows (text : string)
| SqlError (text : string).

(** [SQLDatabase.run_no_throw]: the rows as text, or the error as text. *)
Definition run_no_throw_text (r : sql_result) : string :=
  match r with
  | Rows t => t
  | SqlError e => "Error: " +:+ e
  end.

(** [db.dialect] of a database opened from a [sqlite:///] address. *)
Definition dialect : string := "sqlite".

Definition generate_query_system_prompt : string :=
"
    You are an agent designed to interact with a SQL database.
    Given an input question, create a syntactically correct " +:+ dialect +:+ " query to run,
    then look at the results of the query and return the answer. Unless the user
    specifies a specific number of examples they wish to obtain, always limit your
    query to at most 5 results.
    
    You can order the results by a relevant column to return the most interesting
    examples in the database. Never query for all the columns from a specific table,
    only ask for the relevant columns given the question.
    
    DO NOT make any DML statements (INSERT, UPDATE, DELETE, DROP etc.) to the database.
    ".

Definition check_query_system_prompt : string :=
"
    You are a SQL expert with a strong attention to detail.
    Double check the " +:+ dialect +:+ " query for common mistakes, including:
    - Using NOT IN with NULL values
    - Using UNION when UNION ALL should have been used
    - Using BETWEEN for exclusive ranges
    - Data type mismatch in predicates
    - Properly quoting identifiers
    - Using the correct number of arguments for functions
    - Casting to the correct data type
    - Using the proper columns for joins
    
    If there are any of the above mistakes, rewrite the query. If there are no mistakes,
    just reproduce the original query.
    
    You will call the appropriate tool to execute the query after running this check.
    ".

(** The nodes added to the graph, and where control is. *)
Inductive node :=
| n_list_tables | n_call_get_schema | n_get_schema
| n_generate_query | n_check_query | n_run_query.

Inductive place := At (n : node) | END.

#[global] Instance node_eq_dec : EqDecision node.
Proof. solve_decision. Defined.

#[global] Instance place_eq_dec : EqDecision place.
Proof. solve_decision. Defined.

(** The exceptions a node can raise on its state, and the one the graph
    library raises when a run reaches its recursion limit. *)
Inductive exn :=
| KeyError | IndexError | AttributeError | ValueError
| GraphRecursionError.

Inductive except (A : Type) :=
| Ok (a : A)
| Raise (e : exn).
Arguments Ok {A} a.
Arguments Raise {A} e.

#[global] Instance except_ret : MRet except := λ A a, Ok a.

#[global] Instance except_bind : MBind except := λ A B f r,
  match r with
  | Ok a => f a
  | Raise e => Raise e
  end.

Ltac unfold_bind := unfold mbind, except_bind, mret, except_ret in *.

(** Splitting a conjunction of facts to compute. *)
Ltac split_all := repeat match goal with |- _ ∧ _ => split end.

(** The tools of the toolkit that the graph uses. *)
Inductive tool := sql_db_list_tables | sql_db_schema | sql_db_query.

Definition tool_name (t : tool) : string :=
  match t with
  | sql_db_list_tables => "sql_db_list_tables"
  | sql_db_schema => "sql_db_schema"
  | sql_db_query => "sql_db_query"
  end.

(** [TOOL_CALL_ERROR_TEMPLATE] and [INVALID_TOOL_NAME_ERROR_TEMPLATE] of
    the graph library's tool node. *)
Definition tool_call_error (e : string) : string :=
  "Error: " +:+ e +:+ "
 Please fix your mistakes.".

Definition invalid_tool_name_error (requested available : string) : string :=
  "Error: " +:+ requested +:+ " is not a valid tool, try one of ["
    +:+ available +:+ "].".

(** ** The agent of [create_sql_agent] *)

Section Agent.
(** The state of the data source behind the connection [db]. *)
Context {DB : Type}.

(** The successive results of [uuid.uuid4()]: the identifiers that the
    reducer gives to new messages and the run identifiers that the chat
    model wrapper gives to its answers are drawn from them. *)
Variable uuid4 : nat → string.

(** [llm_with_tools.invoke(messages)]. *)
Variable llm : llm_request → llm_reply.

(** [db.get_usable_table_names()]. *)
Variable db_tables : DB → list string.

(** [db.get_table_info_no_throw] on the [table_names] argument. *)
Variable db_schema : DB → string → string.

(** [db.run]: the data source executes a statement, which may change it. *)
Variable db_run : DB → string → DB * sql_result.

(** The text of the validation exception of a tool invoked without the
    argument of its schema. *)
Variable arg_error : tool → gmap string string → string.

(** What the agent does to its collaborators, in order. *)
Inductive event :=
| EvNode (n : node)
| EvModel (req : llm_request)
| EvTool (t : tool) (tc : tool_call) (d : DB).

(** The graph state ([messages]) together with the data source, the
    number of identifiers drawn and the events so far. *)
Record State := MkState {
  messages : list message;
  db : DB;
  next_uuid : nat;
  log : list event;
}.

Definition emit (e : event) (st : State) : State :=
  MkState (messages st) (db st) (next_uuid st) (log st ++ [e]).

(** [tool._run] behind [tool.invoke]: the new data source and the content
    of the tool message. *)
Definition tool_run (t : tool) (d : DB) (args : gmap string string)
    : DB * string :=
  match t with
  | sql_db_list_tables => (d, String.concat ", " (db_tables d))
  | sql_db_schema =>
      match args !! "table_names" with
      | Some names => (d, db_schema d names)
      | None => (d, tool_call_error (arg_error t args))
      end
  | sql_db_query =>
      match args !! "query" with
      | Some q => let '(d', r) := db_run d q in (d', run_no_throw_text r)
      | None => (d, tool_call_error (arg_error t args))
      end
  end.

(** [tool.invoke(tool_call)]: a tool message that repeats the identifier
    of the call. *)
Definition tool_invoke (t : tool) (tc : tool_call) (st : State)
    : message * State :=
  let '(d', out) := tool_run t (db st) (tc_args tc) in
  (ToolMessage out (tool_name t) (tc_id tc) None,
   MkState (messages st) d' (next_uuid st) (log st ++ [EvTool t tc (db st)])).

(** A chat model call: the answer comes back as an [AIMessage] with a run
    identifier. *)
Definition llm_invoke (req : llm_request) (st : State) : message * State :=
  let r := llm req in
  (AIMessage (reply_content r) (reply_tool_calls r)
     (Some (uuid4 (next_uuid st))),
   MkState (messages st) (db st) (S (next_uuid st))
     (log st ++ [EvModel req])).

(** *** Node functions: each returns its update [{"messages": ...}] *)

Definition list_tables (st : State) : except (list message * State) :=
  let tool_call := ToolCall "sql_db_list_tables" ∅ "abc123" in
  let tool_call_message := AIMessage "" [tool_call] None in
  let '(tool_message, st1) := tool_invoke sql_db_list_tables tool_call st in
  let response :=
    AIMessage ("Available tables: " +:+ msg_content tool_message) [] None in
  Ok ([tool_call_message; tool_message; response], st1).

Definition call_get_schema (st : State) : except (list message * State) :=
  let '(response, st1) :=
    llm_invoke (LlmRequest [tool_name sql_db_schema] (Some "any")
                  (messages st)) st in
  Ok ([response], st1).

Definition generate_query (st : State) : except (list message * State) :=
  let system_message := SystemMessage generate_query_system_prompt None in
  let '(response, st1) :=
    llm_invoke (LlmRequest [tool_name sql_db_query] None
                  (system_message :: messages st)) st in
  Ok ([response], st1).

(** [state["messages"][-1]]. *)
Definition last_message (st : State) : except message :=
  match last (messages st) with
  | Some m => Ok m
  | None => Raise IndexError
  end.

(** [m.tool_calls]. *)
Definition get_tool_calls (m : message) : except (list tool_call) :=
  match msg_tool_calls m with
  | Some tcs => Ok tcs
  | None => Raise AttributeError
  end.

Definition check_query (st : State) : except (list message * State) :=
  let system_message := SystemMessage check_query_system_prompt None in
  last_m ← last_message st;
  tcs ← get_tool_calls last_m;
  tool_call ← match tcs with
              | tc :: _ => Ok tc
              | [] => Raise IndexError
              end;
  query ← match tc_args tool_call !! "query" with
          | Some q => Ok q
          | None => Raise KeyError
          end;
  let user_message := HumanMessage query None in
  let '(response, st1) :=
    llm_invoke (LlmRequest [tool_name sql_db_query] (Some "any")
                  [system_message; user_message]) st in
  let response := set_id (msg_id last_m) response in
  Ok ([response], st1).

Definition should_continue (st : State) : except place :=
  last_m ← last_message st;
  tcs ← get_tool_calls last_m;
  match tcs with
  | [] => Ok END
  | _ :: _ => Ok (At n_check_query)
  end.

(** *** The prebuilt tool node over one tool

    It takes the tool calls of the last message, which must be an
    [AIMessage], and answers each with one tool message: the tool's
    output, or an error text when the call names another tool.  The
    library runs the calls of one message on a thread pool and keeps
    their order in the output.  [run_all] is the node with the tools run
    in the order of the calls, which is the only order when the message
    carries one call; the node under any other order of the pool is
    [run_all_scheduled] below. *)

Definition run_one (t : tool) (tc : tool_call) (st : State)
    : message * State :=
  if decide (tc_name tc = tool_name t) then tool_invoke t tc st
  else (ToolMessage (invalid_tool_name_error (tc_name tc) (tool_name t))
          (tc_name tc) (tc_id tc) None, st).

Fixpoint run_all (t : tool) (tcs : list tool_call) (st : State)
    : list message * State :=
  match tcs with
  | [] => ([], st)
  | tc :: rest =>
      let '(m, st1) := run_one t tc st in
      let '(ms, st2) := run_all t rest st1 in
      (m :: ms, st2)
  end.

Definition tool_node (t : tool) (st : State)
    : except (list message * State) :=
  match last (messages st) with
  | Some (AIMessage _ tcs _) => Ok (run_all t tcs st)
  | Some _ => Raise ValueError
  | None => Raise ValueError
  end.

Definition get_schema_node := tool_node sql_db_schema.
Definition run_query_node := tool_node sql_db_query.

(** *** The graph *)

Definition node_fn (n : node) : State → except (list message * State) :=
  match n with
  | n_list_tables => list_tables
  | n_call_get_schema => call_get_schema
  | n_get_schema => get_schema_node
  | n_generate_query => generate_query
  | n_check_query => check_query
  | n_run_query => run_query_node
  end.

(** The edges added to the builder; the one out of [generate_query] is
    conditional. *)
Definition edge (n : node) (st : State) : except place :=
  match n with
  | n_list_tables => Ok (At n_call_get_schema)
  | n_call_get_schema => Ok (At n_get_schema)
  | n_get_schema => Ok (At n_generate_query)
  | n_generate_query => should_continue st
  | n_check_query => Ok (At n_run_query)
  | n_run_query => Ok (At n_generate_query)
  end.

(** The reducer applied to a node's update. *)
Definition apply_update (upd : list message) (st : State) : State :=
  let '(n', ms) := add_messages uuid4 (next_uuid st) (messages st) upd in
  MkState ms (db st) n' (log st).

(** One super-step: run the node, merge its update, follow the edge. *)
Definition step (n : node) (st : State) : except (place * State) :=
  '(upd, st1) ← node_fn n (emit (EvNode n) st);
  let st2 := apply_update upd st1 in
  p ← edge n st2;
  Ok (p, st2).

(** The first [k] super-steps from a place; [END] is final.  The graph
    has no bound of its own on their number: the bound is the recursion
    limit of the library, applied in [agent_invoke] below. *)
Fixpoint run (k : nat) (p : place) (st : State) : except (place * State) :=
  match k, p with
  | 0, _ => Ok (p, st)
  | S _, END => Ok (END, st)
  | S k', At n => '(p', st') ← step n st; run k' p' st'
  end.

(** [agent.invoke({"messages": [{"role": "user", "content": query}]})]:
    the input goes through the reducer, then the edge out of [START]. *)
Definition initial (query : string) (d : DB) : State :=
  apply_update [HumanMessage query None] (MkState [] d 0 []).

(** Its first [k] super-steps. *)
Definition invoke (k : nat) (query : string) (d : DB)
    : except (place * State) :=
  run k (At n_list_tables) (initial query d).

(** The whole call: the library runs at most [recursion_limit]
    super-steps and raises [GraphRecursionError] when the run has not
    reached [END] by then; the result is the final state.  The limit is
    the one in force for the call: the code passes none, so it is the
    default of the library. *)
Definition agent_invoke (recursion_limit : nat) (query : string) (d : DB)
    : except State :=
  match invoke recursion_limit query d with
  | Ok (END, st) => Ok st
  | Ok (At _, _) => Raise GraphRecursionError
  | Raise e => Raise e
  end.

(** *** The tool node on a thread pool

    The library hands the calls of one message to a thread pool and
    returns the tool messages in the order of the calls.  In which order
    the tools themselves run is the scheduler's: [order] lists the
    positions of the calls in the order in which their tools run, each
    run in one piece on the data source. *)
Fixpoint run_in_order (t : tool) (tcs : list tool_call) (order : list nat)
    (st : State) : gmap nat message * State :=
  match order with
  | [] => (∅, st)
  | i :: rest =>
      match tcs !! i with
      | Some tc =>
          let '(m, st1) := run_one t tc st in
          let '(outs, st2) := run_in_order t tcs rest st1 in
          (<[i := m]> outs, st2)
      | None => run_in_order t tcs rest st
      end
  end.

Definition run_all_scheduled (order : list nat) (t : tool)
    (tcs : list tool_call) (st : State) : list message * State :=
  let '(outs, st') := run_in_order t tcs order st in
  (omap (λ i, outs !! i) (seq 0 (length tcs)), st').

(** The scheduler as a choice of order at each moment of the run, the
    moment being the number of events so far.  An order has every
    position of the calls once; a choice that is no such order stands
    for the order of the calls. *)
Definition order_of (schedule : nat → list nat) (tcs : list tool_call)
    (st : State) : list nat :=
  let order := schedule (length (log st)) in
  if decide (order ≡ₚ seq 0 (length tcs)) then order
  else seq 0 (length tcs).

Definition tool_node_scheduled (schedule : nat → list nat) (t : tool)
    (st : State) : except (list message * State) :=
  match last (messages st) with
  | Some (AIMessage _ tcs _) =>
      Ok (run_all_scheduled (order_of schedule tcs st) t tcs st)
  | Some _ => Raise ValueError
  | None => Raise ValueError
  end.

Definition node_fn_scheduled (schedule : nat → list nat) (n : node)
    : State → except (list message * State) :=
  match n with
  | n_get_schema => tool_node_scheduled schedule sql_db_schema
  | n_run_query => tool_node_scheduled schedule sql_db_query
  | _ => node_fn n
  end.

Definition step_scheduled (schedule : nat → list nat) (n : node)
    (st : State) : except (place * State) :=
  '(upd, st1) ← node_fn_scheduled schedule n (emit (EvNode n) st);
  let st2 := apply_update upd st1 in
  p ← edge n st2;
  Ok (p, st2).

Fixpoint run_scheduled (schedule : nat → list nat) (k : nat) (p : place)
    (st : State) : except (place * State) :=
  match k, p with
  | 0, _ => Ok (p, st)
  | S _, END => Ok (END, st)
  | S k', At n =>
      '(p', st') ← step_scheduled schedule n st;
      run_scheduled schedule k' p' st'
  end.

Definition invoke_scheduled (schedule : nat → list nat) (k : nat)
    (query : string) (d : DB) : except (place * State) :=
  run_scheduled schedule k (At n_list_tables) (initial query d).
End Agent.

Arguments State : clear implicits.
Arguments event : clear implicits.

(** ** The query endpoint of [main.py] *)

Module QueryRequest.
Record t := Make { query : string; session_id : string }.
End QueryRequest.

Module QueryResponse.
Record t := Make {
  result : string;
  sql_query : option string;
  session_id : string;
}.
End QueryResponse.

(** The inner loop [for tool_call in message.tool_calls], which stops at
    the first call named [sql_db_query]. *)
Fixpoint scan_tool_calls (sql_query : option string) (tcs : list tool_call)
    : option string :=
  match tcs with
  | [] => sql_query
  | tool_call :: rest =>
      if decide (tc_name tool_call = "sql_db_query"%string)
      then tc_args tool_call !! "query"
      else scan_tool_calls sql_query rest
  end.

(** One turn of the outer loop [for message in result["messages"]]. *)
Definition scan_message (sql_query : option string) (m : message)
    : option string :=
  match msg_tool_calls m with
  | Some ((_ :: _) as tcs) => scan_tool_calls sql_query tcs
  | _ => sql_query
  end.

(** The value of [sql_query] after the loops, from [None]. *)
Definition extract_sql_query (msgs : list message) : option string :=
  foldl scan_message None msgs.

(** What the handler answers. *)
Inductive http (A : Type) :=
| Http200 (a : A)
| HTTPException (status_code : nat).
Arguments Http200 {A} a.
Arguments HTTPException {A} status_code.

Section Endpoint.
Context {DB : Type}.
Variable uuid4 : nat → string.
Variable llm : llm_request → llm_reply.
Variable db_tables : DB → list string.
Variable db_schema : DB → string → string.
Variable db_run : DB → string → DB * sql_result.
Variable arg_error : tool → gmap string string → string.

(** The part of the handler after [agent.invoke] has returned. *)
Definition build_response (session_id : string) (msgs : list message)
    : except QueryResponse.t :=
  match last msgs with
  | None => Raise IndexError
  | Some final_message =>
      Ok (QueryResponse.Make (msg_content final_message)
            (extract_sql_query msgs) session_id)
  end.

(** [query_database] on the sessions of [active_databases], under the
    recursion limit of the graph library: an unknown session is answered
    404, and whatever is raised inside the [try], the recursion error
    included, is answered 500. *)
Definition query_database (recursion_limit : nat)
    (active_databases : gmap string DB) (request : QueryRequest.t)
    : http QueryResponse.t :=
  match active_databases !! QueryRequest.session_id request with
  | None => HTTPException 404
  | Some d =>
      match agent_invoke uuid4 llm db_tables db_schema db_run arg_error
              recursion_limit (QueryRequest.query request) d with
      | Raise _ => HTTPException 500
      | Ok st =>
          match build_response (QueryRequest.session_id request)
                  (messages st) with
          | Ok r => Http200 r
          | Raise _ => HTTPException 500
          end
      end
  end.
End Endpoint.

(** ** The upload and session handlers of [main.py] *)

(** [s.endswith(suffixes)] for a tuple of suffixes. *)
Definition endswith (s suffix : string) : bool :=
  bool_decide (String.list_ascii_of_string suffix `suffix_of`
               String.list_ascii_of_string s).

Definition endswith_any (s : string) (suffixes : list string) : bool :=
  existsb (endswith s) suffixes.

(** [os.path.join(a, b)]. *)
Definition path_join (a b : string) : string :=
  if String.prefix "/" b then b
  else if bool_decide (a = ""%string) || endswith a "/" then a +:+ b
  else a +:+ "/" +:+ b.

Section TableNames.
(** The characters of a sheet name, as Python has them, with the three
    that the cleaning names and [str.isalnum] on one character. *)
Context {char : Type} `{Countable char}.
Variables space hyphen underscore : char.
Variable isalnum : char → bool.

(** [s.replace(old, new)] for one-character [old] and [new]. *)
Definition replace_char (old new : char) (s : list char) : list char :=
  (λ c, if decide (c = old) then new else c) <$> s.

(** The two lines of [excel_to_sqlite] that make a table name of a sheet
    name. *)
Definition clean_table_name (sheet_name : list char) : list char :=
  let table_name :=
    replace_char hyphen underscore
      (replace_char space underscore sheet_name) in
  filter (λ c, isalnum c = true ∨ c = underscore) table_name.

(** What the two replacements make of one character. *)
Definition replaced (c : char) : char :=
  if decide ((if decide (c = space) then underscore else c) = hyphen)
  then underscore
  else if decide (c = space) then underscore else c.

(** The rows of a sheet, as a [DataFrame]. *)
Context {Data : Type}.

(** [pd.read_excel(path, sheet_name)], [None] when it raises, and whether
    [df.to_sql(table_name, conn, if_exists='replace')] goes through. *)
Variable read_excel : list char → option Data.
Variable to_sql_ok : list char → Data → bool.

(** The loop over the sheets, on the tables of the connection; [None]
    when a call raises.  Writing with [if_exists='replace'] puts the sheet
    in the place of a table of the same name. *)
Fixpoint write_sheets (conn : gmap (list char) Data)
    (sheet_names : list (list char)) : option (gmap (list char) Data) :=
  match sheet_names with
  | [] => Some conn
  | sheet_name :: rest =>
      match read_excel sheet_name with
      | None => None
      | Some df =>
          let table_name := clean_table_name sheet_name in
          if to_sql_ok table_name df
          then write_sheets (<[table_name := df]> conn) rest
          else None
      end
  end.

(** [excel_to_sqlite] on a workbook whose sheet names are [sheet_names]
    ([None] when [pd.ExcelFile] raises), into a new database: its tables,
    or the [HTTPException] that replaces any exception. *)
Definition excel_to_sqlite (sheet_names : option (list (list char)))
    : http (gmap (list char) Data) :=
  match sheet_names with
  | None => HTTPException 400
  | Some names =>
      match write_sheets ∅ names with
      | Some tables => Http200 tables
      | None => HTTPException 400
      end
  end.
End TableNames.

(** An entry of [active_databases]. *)
Record session (DB : Type) := MkSession {
  agent : DB;
  db_path : string;
  temp_dir : string;
  original_filename : string;
}.
Arguments MkSession {DB} agent db_path temp_dir original_filename.
Arguments agent {DB} s.
Arguments db_path {DB} s.
Arguments temp_dir {DB} s.
Arguments original_filename {DB} s.

(** The module state [active_databases], and the temporary directories
    that exist. *)
Record server (DB : Type) := MkServer {
  active_databases : gmap string (session DB);
  temp_dirs : gset string;
}.
Arguments MkServer {DB} active_databases temp_dirs.
Arguments active_databases {DB} s.
Arguments temp_dirs {DB} s.

(** The dictionary that an upload answers with. *)
Record upload_reply := MkUploadReply {
  upload_session_id : string;
  upload_message : string;
  upload_note : string * string;
}.

(** The dictionary that [get_session_info] answers with. *)
Record session_info := MkSessionInfo {
  info_session_id : string;
  info_original_filename : string;
  info_status : string;
}.

Section Handlers.
Context {DB Content Data : Type} {char : Type} `{Countable char}.
Variables space hyphen underscore : char.
Variable isalnum : char → bool.

(** Writing the uploaded bytes to a path: whether it goes through. *)
Variable save : string → Content → bool.

(** The workbook in the uploaded bytes: [pd.ExcelFile(path).sheet_names]
    and [pd.read_excel], [None] when they raise; and [to_sql]. *)
Variable sheet_names : Content → option (list (list char)).
Variable read_excel : Content → list char → option Data.
Variable to_sql_ok : list char → Data → bool.

(** [create_sql_agent(db_path)] on the database made of the sheets, and
    on an uploaded database file; [None] when it raises. *)
Variable agent_of_tables : gmap (list char) Data → option DB.
Variable agent_of_file : Content → option DB.

(** Whether [shutil.rmtree] manages to remove a directory; with
    [ignore_errors=True] a failure is silent. *)
Variable rmtree_ok : string → bool.

(** [upload_excel]; [session_id] is the [uuid4] drawn and [mkdtemp] the
    result of [tempfile.mkdtemp()], [None] when it raises.  Whatever is
    raised inside the [try], the [HTTPException] of [excel_to_sqlite]
    included, is replaced by one of status 500. *)
Definition upload_excel (srv : server DB) (filename : string)
    (content : Content) (session_id : string) (mkdtemp : option string)
    : server DB * http upload_reply :=
  if negb (endswith_any filename [".xlsx"; ".xls"]%string)
  then (srv, HTTPException 400)
  else
    match mkdtemp with
    | None => (srv, HTTPException 500)
    | Some temp_dir =>
        let srv1 :=
          MkServer (active_databases srv) ({[temp_dir]} ∪ temp_dirs srv) in
        let excel_path := path_join temp_dir filename in
        let db_path := path_join temp_dir (session_id +:+ ".db") in
        if negb (save excel_path content) then (srv1, HTTPException 500)
        else
          match excel_to_sqlite space hyphen underscore isalnum
                  (read_excel content) to_sql_ok (sheet_names content) with
          | HTTPException _ => (srv1, HTTPException 500)
          | Http200 tables =>
              match agent_of_tables tables with
              | None => (srv1, HTTPException 500)
              | Some agent =>
                  (MkServer
                     (<[session_id :=
                          MkSession agent db_path temp_dir filename]>
                        (active_databases srv1))
                     (temp_dirs srv1),
                   Http200
                     (MkUploadReply session_id
                        ("Excel file '" +:+ filename
                           +:+ "' successfully converted to SQLite database")
                        ("tables_created"%string,
                         "Check available tables using a query"%string)))
              end
          end
    end.

(** [upload_database]. *)
Definition upload_database (srv : server DB) (filename : string)
    (content : Content) (session_id : string) (mkdtemp : option string)
    : server DB * http upload_reply :=
  if negb (endswith_any filename [".db"; ".sqlite"; ".sqlite3"]%string)
  then (srv, HTTPException 400)
  else
    match mkdtemp with
    | None => (srv, HTTPException 500)
    | Some temp_dir =>
        let srv1 :=
          MkServer (active_databases srv) ({[temp_dir]} ∪ temp_dirs srv) in
        let db_path := path_join temp_dir filename in
        if negb (save db_path content) then (srv1, HTTPException 500)
        else
          match agent_of_file content with
          | None => (srv1, HTTPException 500)
          | Some agent =>
              (MkServer
                 (<[session_id :=
                      MkSession agent db_path temp_dir filename]>
                    (active_databases srv1))
                 (temp_dirs srv1),
               Http200
                 (MkUploadReply session_id
                    ("Database '" +:+ filename +:+ "' successfully uploaded")
                    ("tables_available"%string,
                     "Check available tables using a query"%string)))
          end
    end.

(** [get_session_info]. *)
Definition get_session_info (srv : server DB) (session_id : string)
    : http session_info :=
  match active_databases srv !! session_id with
  | None => HTTPException 404
  | Some session_data =>
      Http200
        (MkSessionInfo session_id (original_filename session_data) "active")
  end.

(** [cleanup_session]: the directory of the session is removed if the
    removal goes through, errors ignored, then the entry; the answer is
    the message either way. *)
Definition cleanup_session (srv : server DB) (session_id : string)
    : server DB * http string :=
  match active_databases srv !! session_id with
  | None => (srv, HTTPException 404)
  | Some session_data =>
      let dir := temp_dir session_data in
      (MkServer (delete session_id (active_databases srv))
         (if rmtree_ok dir then temp_dirs srv ∖ {[dir]} else temp_dirs srv),
       Http200 ("Session " +:+ session_id +:+ " cleaned up successfully"))
  end.
End Handlers.

(** ** Vocabulary of the properties *)

Section Vocabulary.
Variable uuid4 : nat → string.

(** Every message of [ms] carries one of the first [n] identifiers. *)
Definition ids_below (n : nat) (ms : list message) : Prop :=
  Forall (λ m, ∃ k, k < n ∧ msg_id m = Some (uuid4 k)) ms.

(** The identifiers given to an update of messages without one. *)
Fixpoint stamp (n : nat) (ms : list message) : list message :=
  match ms with
  | [] => []
  | m :: ms' => set_id (Some (uuid4 n)) m :: stamp (S n) ms'
  end.

(** The state is well formed when its identifiers have been drawn. *)
Definition wf {DB} (st : State DB) : Prop :=
  ids_below (next_uuid st) (messages st).
End Vocabulary.

(** The requests that the three model-calling nodes send. *)
Definition schema_request (ms : list message) : llm_request :=
  LlmRequest [tool_name sql_db_schema] (Some "any"%string) ms.

Definition generate_request (ms : list message) : llm_request :=
  LlmRequest [tool_name sql_db_query] None
    (SystemMessage generate_query_system_prompt None :: ms).

Definition check_request (q : string) : llm_request :=
  LlmRequest [tool_name sql_db_query] (Some "any"%string)
    [SystemMessage check_query_system_prompt None; HumanMessage q None].

(** The answer of the model as a message. *)
Definition reply_message (r : llm_reply) (i : option string) : message :=
  AIMessage (reply_content r) (reply_tool_calls r) i.

(** Every request of the history is answered: an [AIMessage] is directly
    followed by one tool message per tool call it carries, in the order
    of the calls and with their identifiers, and no tool message stands
    elsewhere.  [pending] holds the identifiers still to be answered. *)
Fixpoint answered_from (pending : list string) (ms : list message) : bool :=
  match ms with
  | [] => bool_decide (pending = [])
  | ToolMessage _ _ tcid _ :: rest =>
      match pending with
      | p :: ps => bool_decide (p = tcid) && answered_from ps rest
      | [] => false
      end
  | AIMessage _ tcs _ :: rest =>
      bool_decide (pending = []) && answered_from (tc_id <$> tcs) rest
  | _ :: rest => bool_decide (pending = []) && answered_from [] rest
  end.

Definition answered (ms : list message) : bool := answered_from [] ms.

(** What the history looks like when control is at a place: answered
    throughout where a node hands the history to the model, and with one
    last request still open where a node is about to treat it. *)
Definition shape (p : place) (ms : list message) : Prop :=
  match p with
  | At n_list_tables | At n_call_get_schema | At n_generate_query =>
      answered ms = true
  | At n_get_schema | At n_run_query =>
      ∃ ms' c tcs i, ms = ms' ++ [AIMessage c tcs i] ∧ answered ms' = true
  | At n_check_query =>
      ∃ ms' c tc tcs i,
        ms = ms' ++ [AIMessage c (tc :: tcs) i] ∧ answered ms' = true
  | END =>
      ∃ ms' c i, ms = ms' ++ [AIMessage c [] i] ∧ answered ms' = true
  end.

Definition inv {DB} (uuid4 : nat → string) (p : place) (st : State DB)
    : Prop :=
  wf uuid4 st ∧ shape p (messages st).

(** *** Reading the events *)

Section Events.
Context {DB : Type}.

Definition event_node (e : event DB) : option node :=
  match e with EvNode n => Some n | _ => None end.

Definition event_model (e : event DB) : option llm_request :=
  match e with EvModel req => Some req | _ => None end.

Definition event_tool (e : event DB) : option (tool * tool_call * DB) :=
  match e with EvTool t tc d => Some (t, tc, d) | _ => None end.

(** The nodes run, the model calls made and the tool invocations made,
    each in order. *)
Definition nodes_of (l : list (event DB)) : list node :=
  omap event_node l.
Definition model_calls_of (l : list (event DB)) : list llm_request :=
  omap event_model l.
Definition tool_invocations_of (l : list (event DB))
    : list (tool * tool_call * DB) :=
  omap event_tool l.
End Events.

(** *** The tool node, call by call *)

Section ToolNodeSpec.
Context {DB : Type}.
Variable db_tables : DB → list string.
Variable db_schema : DB → string → string.
Variable db_run : DB → string → DB * sql_result.
Variable arg_error : tool → gmap string string → string.

(** The data source after the tool node over [t] has treated one call,
    and after it has treated the calls [tcs] in order. *)
Definition db_step (t : tool) (d : DB) (tc : tool_call) : DB :=
  if decide (tc_name tc = tool_name t)
  then (tool_run db_tables db_schema db_run arg_error t d (tc_args tc)).1
  else d.

Definition db_after (t : tool) (d : DB) (tcs : list tool_call) : DB :=
  foldl (db_step t) d tcs.

(** The tool message that answers one call on the data source [d]. *)
Definition answer_of (t : tool) (d : DB) (tc : tool_call) : message :=
  if decide (tc_name tc = tool_name t)
  then ToolMessage
         (tool_run db_tables db_schema db_run arg_error t d (tc_args tc)).2
         (tool_name t) (tc_id tc) None
  else ToolMessage (invalid_tool_name_error (tc_name tc) (tool_name t))
         (tc_name tc) (tc_id tc) None.

Fixpoint answers (t : tool) (d : DB) (tcs : list tool_call)
    : list message :=
  match tcs with
  | [] => []
  | tc :: rest => answer_of t d tc :: answers t (db_step t d tc) rest
  end.

(** The invocations of the tool itself. *)
Fixpoint invocations (t : tool) (d : DB) (tcs : list tool_call)
    : list (event DB) :=
  match tcs with
  | [] => []
  | tc :: rest =>
      (if decide (tc_name tc = tool_name t) then [EvTool t tc d] else [])
        ++ invocations t (db_step t d tc) rest
  end.
End ToolNodeSpec.

(** *** The executed query, in the words of the specification *)

(** A message that contains a [sql_db_query] tool call. *)
Definition calls_sql_db_query (m : message) : bool :=
  existsb (λ tc, bool_decide (tc_name tc = "sql_db_query"%string))
    (default [] (msg_tool_calls m)).

(** The last message of the history that contains such a call. *)
Definition last_query_message (msgs : list message) : option message :=
  last (filter (λ m, calls_sql_db_query m = true) msgs).

(** The [sql_db_query] call of a message: the first one it carries. *)
Definition first_query_call (m : message) : option tool_call :=
  head (filter (λ tc, tc_name tc = "sql_db_query"%string)
          (default [] (msg_tool_calls m))).

(** The [query] argument of that call of that message, if any. *)
Definition executed_sql (msgs : list message) : option string :=
  m ← last_query_message msgs;
  tc ← first_query_call m;
  tc_args tc !! "query".

(** *** Two runs that draw different identifiers *)

(** A history, a request and an event without message identifiers. *)
Definition erase_ids (ms : list message) : list message := set_id None <$> ms.

Definition erase_request (r : llm_request) : llm_request :=
  LlmRequest (req_tools r) (req_tool_choice r) (erase_ids (req_messages r)).

Definition erase_event {DB} (e : event DB) : event DB :=
  match e with
  | EvModel req => EvModel (erase_request req)
  | _ => e
  end.

(** A fixed model: its answer is a function of the tools, the tool choice
    and the roles, texts and tool calls of the messages it is sent.  (The
    message identifiers are drawn afresh in each run.) *)
Definition fixed_model (llm : llm_request → llm_reply) : Prop :=
  ∀ r r', erase_request r = erase_request r' → llm r = llm r'.

(** Two states that differ at most in the message identifiers. *)
Definition related {DB} (a b : State DB) : Prop :=
  erase_ids (messages a) = erase_ids (messages b)
  ∧ db a = db b
  ∧ erase_event <$> log a = erase_event <$> log b.

(** Two outcomes of a run that agree up to message identifiers. *)
Definition same_outcome {DB} (ra rb : except (place * State DB)) : Prop :=
  match ra, rb with
  | Ok (p, a), Ok (p', b) => p = p' ∧ related a b
  | Raise e, Raise e' => e = e'
  | _, _ => False
  end.

(** The nodes of the cycle, and the successor of a node on it. *)
Definition next_in_cycle (n : node) : node :=
  match n with
  | n_generate_query => n_check_query
  | n_check_query => n_run_query
  | n_run_query => n_generate_query
  | _ => n
  end.

Definition in_cycle (n : node) : Prop :=
  n = n_generate_query ∨ n = n_check_query ∨ n = n_run_query.

(** An event of the cycle: one of its nodes, a model call that offers the
    query tool alone, or a run of the query tool. *)
Definition cycle_event {DB} (e : event DB) : Prop :=
  match e with
  | EvNode n => in_cycle n
  | EvModel req => req_tools req = [tool_name sql_db_query]
  | EvTool t _ _ => t = sql_db_query
  end.

(** The message a tool node is about to treat carries at most one call. *)
Definition single_call (p : place) (ms : list message) : Prop :=
  match p with
  | At n_get_schema | At n_run_query =>
      ∃ ms' c tcs i, ms = ms' ++ [AIMessage c tcs i] ∧ length tcs ≤ 1
  | _ => True
  end.

(** ** A small data source and two scripted models

    Used to run the agent on concrete inputs. *)

Module Demo.
(** A data source reduced to the number of rows of each table. *)
Definition DB : Type := list (string * nat).

Definition db_tables (d : DB) : list string := d.*1.

Definition db_schema (d : DB) (names : string) : string :=
  "CREATE TABLE " +:+ names.

Definition delete_from (t : string) (d : DB) : DB :=
  (λ '(name, rows), if decide (name = t) then (name, 0) else (name, rows))
    <$> d.

(** It understands one [DELETE] and one [SELECT]; anything else is a
    syntax error. *)
Definition db_run (d : DB) (q : string) : DB * sql_result :=
  if decide (q = "DELETE FROM orders"%string)
  then (delete_from "orders" d, Rows "")
  else if decide (q = "SELECT name FROM customers LIMIT 5"%string)
  then (d, Rows "[('ann',), ('bob',)]")
  else (d, SqlError "near SELEC: syntax error").

Definition row_counts (d : DB) : gmap string nat := list_to_map d.

Definition arg_error (t : tool) (args : gmap string string) : string :=
  "1 validation error: field required".

Definition d0 : DB := [("orders"%string, 3); ("customers"%string, 2)].

Definition is_query_result (m : message) : bool :=
  match m with
  | ToolMessage _ name _ _ => bool_decide (name = "sql_db_query"%string)
  | _ => false
  end.

Definition query_call (q id : string) : tool_call :=
  ToolCall "sql_db_query" {["query"%string := q]} id.

(** A model that first writes a malformed statement, then a [DELETE],
    then answers; asked to check, it repeats the statement it is given. *)
Definition llm (req : llm_request) : llm_reply :=
  if decide (req_tools req = ["sql_db_schema"%string]) then
    LlmReply ""
      [ToolCall "sql_db_schema" {["table_names"%string := "orders"%string]}
         "call_schema"]
  else if decide (req_tool_choice req = Some "any"%string) then
    LlmReply ""
      [query_call (default ""%string (msg_content <$> last (req_messages req)))
         "call_check"]
  else
    match length (filter (λ m, is_query_result m = true) (req_messages req))
    with
    | 0 => LlmReply "" [query_call "SELEC * FROM orders" "call_gen"]
    | 1 => LlmReply "" [query_call "DELETE FROM orders" "call_gen"]
    | _ => LlmReply "All orders are gone." []
    end.

(** A model that asks for the same query whatever it is sent. *)
Definition always_query (req : llm_request) : llm_reply :=
  LlmReply "" [query_call "SELECT 1" "call_1"].

Definition uuid4 (n : nat) : string := pretty n.

(** Another run draws other identifiers. *)
Definition other_uuid4 (n : nat) : string := pretty (S n).

Definition question : string := "How many orders are there?".

Definition invoke (k : nat) : except (place * State DB) :=
  invoke uuid4 llm db_tables db_schema db_run arg_error k question d0.

(** The state of that run after [k] super-steps. *)
Definition state_at (k : nat) : State DB :=
  match invoke k with
  | Ok (_, st) => st
  | Raise _ => MkState [] d0 0 []
  end.
End Demo.

(** A model whose calls carry no argument, and its run on the same data
    source. *)
Module NoQuery.
Definition llm (req : llm_request) : llm_reply :=
  LlmReply "" [ToolCall "sql_db_query" ∅ "call_x"].

Definition run_to (k : nat) : except (place * State Demo.DB) :=
  invoke Demo.uuid4 llm Demo.db_tables Demo.db_schema Demo.db_run
    Demo.arg_error k Demo.question Demo.d0.

Definition state_at (k : nat) : State Demo.DB :=
  match run_to k with
  | Ok (_, st) => st
  | Raise _ => MkState [] Demo.d0 0 []
  end.
End NoQuery.

(** A model that puts two calls in one message: the schema of each
    table, then a [DELETE] and a count on the same table. *)
Module Parallel.
(** The data source of [Demo], which here also counts the rows of
    [orders]. *)
Definition db_run (d : Demo.DB) (q : string) : Demo.DB * sql_result :=
  if decide (q = "SELECT COUNT(*) FROM orders"%string)
  then (d, Rows (pretty (default 0 (Demo.row_counts d !! "orders"%string))))
  else Demo.db_run d q.

Definition llm (req : llm_request) : llm_reply :=
  if decide (req_tools req = ["sql_db_schema"%string]) then
    LlmReply ""
      [ToolCall "sql_db_schema" {["table_names"%string := "orders"%string]}
         "call_s1";
       ToolCall "sql_db_schema"
         {["table_names"%string := "customers"%string]} "call_s2"]
  else
    LlmReply ""
      [Demo.query_call "DELETE FROM orders" "call_q1";
       Demo.query_call "SELECT COUNT(*) FROM orders" "call_q2"].

(** Two schedulers: one runs the tools in the order of the calls, the
    other runs the second call first. *)
Definition in_call_order (moment : nat) : list nat := [0; 1].
Definition second_call_first (moment : nat) : list nat := [1; 0].

Definition run_with (schedule : nat → list nat) (k : nat)
    : except (place * State Demo.DB) :=
  invoke_scheduled Demo.uuid4 llm Demo.db_tables Demo.db_schema db_run
    Demo.arg_error schedule k Demo.question Demo.d0.

Definition state_with (schedule : nat → list nat) (k : nat)
    : State Demo.DB :=
  match run_with schedule k with
  | Ok (_, st) => st
  | Raise _ => MkState [] Demo.d0 0 []
  end.

(** What is read off a tool invocation: the call and the rows of
    [orders] it found. *)
Definition seen (x : tool * tool_call * Demo.DB) : string * option nat :=
  (tc_id x.1.2, Demo.row_counts x.2 !! "orders"%string).

(** The run with the tools run in the order of the calls. *)
Definition run_to (k : nat) : except (place * State Demo.DB) :=
  invoke Demo.uuid4 llm Demo.db_tables Demo.db_schema db_run
    Demo.arg_error k Demo.question Demo.d0.

Definition state_at (k : nat) : State Demo.DB :=
  match run_to k with
  | Ok (_, st) => st
  | Raise _ => MkState [] Demo.d0 0 []
  end.
End Parallel.

(** A model whose candidate carries two calls, the first under another
    name and the second a [DELETE]; asked to check, it repeats the
    statement it is given. *)
Module TwoCalls.
Definition candidate : list tool_call :=
  [ToolCall "lookup"
     {["query"%string := "SELECT name FROM customers LIMIT 5"%string]}
     "call_1";
   Demo.query_call "DELETE FROM orders" "call_2"].

Definition llm (req : llm_request) : llm_reply :=
  if decide (req_tools req = ["sql_db_schema"%string]) then
    LlmReply ""
      [ToolCall "sql_db_schema" {["table_names"%string := "orders"%string]}
         "call_schema"]
  else if decide (req_tool_choice req = Some "any"%string) then
    LlmReply ""
      [Demo.query_call
         (default ""%string (msg_content <$> last (req_messages req)))
         "call_check"]
  else LlmReply "" candidate.

Definition run_to (k : nat) : except (place * State Demo.DB) :=
  invoke Demo.uuid4 llm Demo.db_tables Demo.db_schema Demo.db_run
    Demo.arg_error k Demo.question Demo.d0.

Definition state_at (k : nat) : State Demo.DB :=
  match run_to k with
  | Ok (_, st) => st
  | Raise _ => MkState [] Demo.d0 0 []
  end.
End TwoCalls.

(** A workbook and uploads to try the handlers on. *)
Module Uploads.
(** Sheet names over the characters of [ascii], with the letters and
    digits of ASCII as the alphanumeric ones. *)
Definition isalnum (c : Ascii.ascii) : bool :=
  let n := Ascii.nat_of_ascii c in
  (48 <=? n) && (n <=? 57) || (65 <=? n) && (n <=? 90)
  || (97 <=? n) && (n <=? 122).

Definition chars (s : string) : list Ascii.ascii :=
  String.list_ascii_of_string s.

Definition space : Ascii.ascii := Ascii.ascii_of_nat 32.
Definition hyphen : Ascii.ascii := Ascii.ascii_of_nat 45.
Definition underscore : Ascii.ascii := Ascii.ascii_of_nat 95.

Definition clean (sheet : list Ascii.ascii) : list Ascii.ascii :=
  clean_table_name space hyphen underscore isalnum sheet.

(** Three sheets, each of which holds one number; the bytes of an upload
    are a word. *)
Definition workbook : list (list Ascii.ascii) :=
  [chars "Q1 sales"; chars "notes (old)"; chars "Q1-sales"].

Definition read_sheet (sheet : list Ascii.ascii) : option nat :=
  if decide (sheet = chars "Q1 sales") then Some 1
  else if decide (sheet = chars "notes (old)") then Some 2
  else if decide (sheet = chars "Q1-sales") then Some 3
  else None.

Definition read_excel (content : string) : list Ascii.ascii → option nat :=
  read_sheet.

Definition sheet_names (content : string) : option (list (list Ascii.ascii)) :=
  if decide (content = "workbook"%string) then Some workbook else None.

Definition to_sql_ok (table : list Ascii.ascii) (df : nat) : bool := true.

Definition save (path content : string) : bool := true.

Definition agent_of_tables (tables : gmap (list Ascii.ascii) nat)
    : option Demo.DB :=
  Some Demo.d0.

Definition agent_of_file (content : string) : option Demo.DB :=
  if decide (content = "database"%string) then Some Demo.d0 else None.

Definition no_sessions : server Demo.DB := MkServer ∅ ∅.

Definition excel (srv : server Demo.DB) (filename content sid : string)
    (mkdtemp : option string) : server Demo.DB * http upload_reply :=
  upload_excel space hyphen underscore isalnum save sheet_names
    read_excel to_sql_ok agent_of_tables srv filename content sid mkdtemp.

Definition database (srv : server Demo.DB) (filename content sid : string)
    (mkdtemp : option string) : server Demo.DB * http upload_reply :=
  upload_database save agent_of_file srv filename content sid mkdtemp.

(** The tables made of the workbook, and the sessions after the upload of
    a database. *)
Definition tables : gmap (list Ascii.ascii) nat :=
  match excel_to_sqlite space hyphen underscore isalnum read_sheet to_sql_ok
          (Some workbook) with
  | Http200 t => t
  | HTTPException _ => ∅
  end.

Definition one_session : server Demo.DB :=
  (database no_sessions "data.sqlite3" "database" "s2" (Some "/tmp/b"%string)).1.

(** A file system on which the directory [/tmp/b] cannot be removed. *)
Definition rmtree_ok (dir : string) : bool :=
  negb (bool_decide (dir = "/tmp/b"%string)).
End Uploads.


(** * Properties *)

(** ** The reducer on histories with drawn identifiers *)

Section ReducerFacts.
Variable uuid4 : nat → string.
Hypothesis uuid4_inj : Inj (=) (=) uuid4.

Abbreviation ids_below := (ids_below uuid4).
Abbreviation stamp := (stamp uuid4).

Lemma ids_below_mono n n' ms : n ≤ n' → ids_below n ms → ids_below n' ms.
Proof.
  intros Hle Hms. eapply Forall_impl; [exact Hms|].
  intros m (k & Hk & Hid). exists k. split; [lia | done].
Qed.

Lemma ids_below_app n ms1 ms2 :
  ids_below n (ms1 ++ ms2) ↔ ids_below n ms1 ∧ ids_below n ms2.
Proof. apply Forall_app. Qed.

Lemma ids_below_fresh n k ms :
  ids_below n ms → n ≤ k → Some (uuid4 k) ∉ msg_id <$> ms.
Proof.
  intros Hms Hle Hin. apply list_elem_of_fmap in Hin as (m & Hm & Hin).
  unfold ids_below in Hms. rewrite Forall_forall in Hms.
  destruct (Hms m Hin) as (j & Hj & Hid).
  rewrite Hid in Hm. injection Hm as Hm. apply uuid4_inj in Hm. lia.
Qed.

Lemma assign_ids_present n ms :
  Forall (λ m, is_Some (msg_id m)) ms → assign_ids uuid4 n ms = (n, ms).
Proof.
  induction 1 as [|m ms [i Hi] _ IH]; simpl; [done|].
  by rewrite Hi, IH.
Qed.

Lemma ids_below_present n ms :
  ids_below n ms → Forall (λ m, is_Some (msg_id m)) ms.
Proof.
  intros Hms. eapply Forall_impl; [exact Hms|].
  intros m (k & _ & ->). by eexists.
Qed.

Lemma index_ids_miss k l d i :
  i ∉ msg_id <$> l → index_ids k l d !! i = d !! i.
Proof.
  revert k d. induction l as [|m l IH]; intros k d Hi; simpl; [done|].
  rewrite fmap_cons, not_elem_of_cons in Hi. destruct Hi as [Hne Hi].
  rewrite IH by done. by rewrite lookup_insert_ne.
Qed.

Lemma index_ids_snoc k l m d :
  index_ids k (l ++ [m]) d = <[msg_id m := k + length l]> (index_ids k l d).
Proof.
  revert k d. induction l as [|m' l IH]; intros k d; simpl.
  - by rewrite Nat.add_0_r.
  - rewrite IH. f_equal. lia.
Qed.

(** New messages whose identifiers are not in the history are appended. *)
Lemma merge_fresh idx merged right :
  Forall (λ m, idx !! msg_id m = None) right →
  foldl (merge_one idx) merged right = merged ++ right.
Proof.
  intros H. revert merged.
  induction H as [|m right Hm _ IH]; intros merged; simpl.
  - by rewrite app_nil_r.
  - unfold merge_one at 2. rewrite Hm, IH. by rewrite <- app_assoc.
Qed.

(** A new message with the identifier of the last entry takes its place. *)
Lemma merge_last l m m' :
  msg_id m' = msg_id m →
  merge_one (index_ids 0 (l ++ [m]) ∅) (l ++ [m]) m' = l ++ [m'].
Proof.
  intros Hid. unfold merge_one.
  rewrite index_ids_snoc, Hid, lookup_insert_eq. simpl.
  rewrite insert_app_r_alt by lia. by rewrite Nat.sub_diag.
Qed.

Lemma add_messages_append n n0 left right :
  ids_below n0 left →
  Forall (λ m, ∃ k, n0 ≤ k ∧ msg_id m = Some (uuid4 k)) right →
  add_messages uuid4 n left right = (n, left ++ right).
Proof.
  intros Hl Hr. unfold add_messages.
  rewrite assign_ids_present by by eapply ids_below_present.
  rewrite assign_ids_present.
  2:{ eapply Forall_impl; [exact Hr|]. intros m (k & _ & ->). by eexists. }
  rewrite merge_fresh; [done|].
  eapply Forall_impl; [exact Hr|]. intros m (k & Hk & ->).
  rewrite index_ids_miss; [done|]. by eapply ids_below_fresh.
Qed.

Lemma add_messages_replace_last n l m m' :
  ids_below n (l ++ [m]) → msg_id m' = msg_id m →
  add_messages uuid4 n (l ++ [m]) [m'] = (n, l ++ [m']).
Proof.
  intros Hl Hid. unfold add_messages.
  rewrite assign_ids_present by by eapply ids_below_present.
  apply ids_below_app in Hl as [_ Hm].
  apply Forall_singleton in Hm as (k & _ & Hk).
  simpl. rewrite Hid, Hk. simpl. f_equal. apply merge_last. congruence.
Qed.

Lemma assign_ids_absent n ms :
  Forall (λ m, msg_id m = None) ms →
  assign_ids uuid4 n ms = (n + length ms, stamp n ms).
Proof.
  intros H. revert n. induction H as [|m ms Hm _ IH]; intros n; simpl.
  - by rewrite Nat.add_0_r.
  - rewrite Hm, IH. f_equal. lia.
Qed.

Lemma msg_id_set_id i m : msg_id (set_id i m) = i.
Proof. by destruct m. Qed.

Lemma stamp_ids n ms :
  Forall (λ m, ∃ k, n ≤ k < n + length ms ∧ msg_id m = Some (uuid4 k))
    (stamp n ms).
Proof.
  revert n. induction ms as [|m ms IH]; intros n; simpl; [constructor|].
  constructor.
  - exists n. split; [lia|]. apply msg_id_set_id.
  - eapply Forall_impl; [apply IH|]. intros m' (k & Hk & Hid).
    exists k. split; [lia | done].
Qed.

Lemma add_messages_new n left right :
  ids_below n left → Forall (λ m, msg_id m = None) right →
  add_messages uuid4 n left right
    = (n + length right, left ++ stamp n right).
Proof.
  intros Hl Hr. unfold add_messages.
  rewrite assign_ids_present by by eapply ids_below_present.
  rewrite assign_ids_absent by done.
  rewrite merge_fresh; [done|].
  eapply Forall_impl; [apply stamp_ids|]. intros m (k & Hk & ->).
  rewrite index_ids_miss; [done|]. eapply ids_below_fresh; [done | lia].
Qed.

Lemma ids_below_stamp n ms : ids_below (n + length ms) (stamp n ms).
Proof.
  eapply Forall_impl; [apply stamp_ids|]. intros m (k & Hk & Hid).
  exists k. split; [lia | done].
Qed.
End ReducerFacts.

(** ** One super-step of each node *)

Section StepFacts.
Context {DB : Type}.
Variable uuid4 : nat → string.
Variable llm : llm_request → llm_reply.
Variable db_tables : DB → list string.
Variable db_schema : DB → string → string.
Variable db_run : DB → string → DB * sql_result.
Variable arg_error : tool → gmap string string → string.
Hypothesis uuid4_inj : Inj (=) (=) uuid4.

(** The number of rows of each table of the data source. *)
Variable row_counts : DB → gmap string nat.

Abbreviation ids_below := (ids_below uuid4).
Abbreviation stamp := (stamp uuid4).
Abbreviation stepE := (step uuid4 llm db_tables db_schema db_run arg_error).
Abbreviation runE := (run uuid4 llm db_tables db_schema db_run arg_error).
Abbreviation invokeE :=
  (invoke uuid4 llm db_tables db_schema db_run arg_error).
Abbreviation agent_invokeE :=
  (agent_invoke uuid4 llm db_tables db_schema db_run arg_error).
Abbreviation run_allE := (run_all db_tables db_schema db_run arg_error).
Abbreviation run_oneE := (run_one db_tables db_schema db_run arg_error).
Abbreviation tool_runE := (tool_run db_tables db_schema db_run arg_error).
Abbreviation db_stepE := (db_step db_tables db_schema db_run arg_error).
Abbreviation db_afterE := (db_after db_tables db_schema db_run arg_error).
Abbreviation answer_ofE := (answer_of db_tables db_schema db_run arg_error).
Abbreviation answersE := (answers db_tables db_schema db_run arg_error).
Abbreviation invocationsE :=
  (invocations db_tables db_schema db_run arg_error).

Lemma run_one_frame t tc (st : State DB) :
  messages (run_oneE t tc st).2 = messages st
  ∧ next_uuid (run_oneE t tc st).2 = next_uuid st
  ∧ ∃ c n, (run_oneE t tc st).1 = ToolMessage c n (tc_id tc) None.
Proof.
  unfold run_one, tool_invoke. case_decide; simpl.
  - destruct (tool_runE _ _ _) as [d' out]. simpl. eauto.
  - eauto.
Qed.

Lemma run_all_frame t tcs (st : State DB) :
  messages (run_allE t tcs st).2 = messages st
  ∧ next_uuid (run_allE t tcs st).2 = next_uuid st
  ∧ Forall2 (λ tc m, ∃ c n, m = ToolMessage c n (tc_id tc) None)
      tcs (run_allE t tcs st).1.
Proof.
  revert st. induction tcs as [|tc tcs IH]; intros st; simpl.
  - repeat split. constructor.
  - destruct (run_one_frame t tc st) as (Hm & Hn & c & n & Hone).
    destruct (run_oneE _ _ _) as [m st1]. simpl in *.
    destruct (IH st1) as (Hm' & Hn' & Hall).
    destruct (run_allE _ _ _) as [ms st2]. simpl in *.
    repeat split; [congruence | congruence |]. constructor; eauto.
Qed.

Lemma tool_messages_no_id (tcs : list tool_call) ms :
  Forall2 (λ tc m, ∃ c n, m = ToolMessage c n (tc_id tc) None) tcs ms →
  Forall (λ m, msg_id m = None) ms.
Proof. induction 1 as [|tc m ? ? (c & n & ->)]; constructor; done. Qed.

Lemma step_list_tables (st : State DB) :
  wf uuid4 st →
  let tool_call := ToolCall "sql_db_list_tables" ∅ "abc123" in
  let names := String.concat ", " (db_tables (db st)) in
  stepE n_list_tables st
  = Ok (At n_call_get_schema,
        MkState
          (messages st ++
             stamp (next_uuid st)
               [AIMessage "" [tool_call] None;
                ToolMessage names "sql_db_list_tables" "abc123" None;
                AIMessage ("Available tables: " +:+ names) [] None])
          (db st) (next_uuid st + 3)
          (log st ++ [EvNode n_list_tables;
                      EvTool sql_db_list_tables tool_call (db st)])).
Proof.
  intros Hwf. unfold step. simpl.
  unfold apply_update. simpl.
  rewrite (add_messages_new uuid4 uuid4_inj); [|done|by repeat constructor].
  simpl. by rewrite <- app_assoc.
Qed.

Lemma step_call_get_schema (st : State DB) :
  wf uuid4 st →
  let req := schema_request (messages st) in
  stepE n_call_get_schema st
  = Ok (At n_get_schema,
        MkState
          (messages st
             ++ [reply_message (llm req) (Some (uuid4 (next_uuid st)))])
          (db st) (S (next_uuid st))
          (log st ++ [EvNode n_call_get_schema; EvModel req])).
Proof.
  intros Hwf. unfold step. simpl.
  unfold apply_update. simpl.
  rewrite (add_messages_append uuid4 uuid4_inj _ (next_uuid st)).
  - simpl. by rewrite <- app_assoc.
  - exact Hwf.
  - constructor; [|constructor]. exists (next_uuid st). split; [lia|done].
Qed.

Lemma step_generate_query (st : State DB) :
  wf uuid4 st →
  let req := generate_request (messages st) in
  stepE n_generate_query st
  = Ok (match reply_tool_calls (llm req) with
        | [] => END
        | _ :: _ => At n_check_query
        end,
        MkState
          (messages st
             ++ [reply_message (llm req) (Some (uuid4 (next_uuid st)))])
          (db st) (S (next_uuid st))
          (log st ++ [EvNode n_generate_query; EvModel req])).
Proof.
  intros Hwf. unfold step. simpl.
  unfold apply_update. simpl.
  rewrite (add_messages_append uuid4 uuid4_inj _ (next_uuid st)).
  - simpl. unfold should_continue, last_message. simpl.
    rewrite last_snoc. unfold_bind. simpl. rewrite <- app_assoc.
    unfold reply_message, generate_request. simpl.
    by destruct (reply_tool_calls _).
  - exact Hwf.
  - constructor; [|constructor]. exists (next_uuid st). split; [lia|done].
Qed.
(** The tool node answers every call of the last message, in order. *)
Lemma step_tool_node n t ms c tcs i (st : State DB) :
  (n = n_get_schema ∧ t = sql_db_schema)
  ∨ (n = n_run_query ∧ t = sql_db_query) →
  wf uuid4 st → messages st = ms ++ [AIMessage c tcs i] →
  let r := run_allE t tcs (emit (EvNode n) st) in
  stepE n st
  = Ok (At n_generate_query,
        MkState (messages st ++ stamp (next_uuid st) r.1)
          (db r.2) (next_uuid st + length tcs) (log r.2)).
Proof.
  intros Hn Hwf Hms r.
  destruct (run_all_frame t tcs (emit (EvNode n) st)) as (Hm & Hu & Hall).
  fold r in Hm, Hu, Hall.
  assert (stepE n st
          = '(upd, st1) ← tool_node db_tables db_schema db_run arg_error t
                            (emit (EvNode n) st);
            let st2 := apply_update uuid4 upd st1 in
            p ← Ok (At n_generate_query); Ok (p, st2)) as ->.
  { by destruct Hn as [[-> ->]|[-> ->]]. }
  unfold tool_node. simpl. rewrite Hms, last_snoc.
  fold r. destruct r as [outs st1] eqn:Hr. simpl in *.
  unfold_bind. simpl. unfold apply_update. rewrite Hm, Hu.
  rewrite (add_messages_new uuid4 uuid4_inj).
  - rewrite <- Hms. by rewrite (Forall2_length _ _ _ Hall).
  - exact Hwf.
  - by eapply tool_messages_no_id.
Qed.

(** The check sends only the candidate's query text to the model and
    puts the answer in the place of the candidate. *)
Lemma step_check_query ms c tc tcs i q (st : State DB) :
  wf uuid4 st → messages st = ms ++ [AIMessage c (tc :: tcs) i] →
  tc_args tc !! "query" = Some q →
  let req := check_request q in
  stepE n_check_query st
  = Ok (At n_run_query,
        MkState (ms ++ [reply_message (llm req) i])
          (db st) (S (next_uuid st))
          (log st ++ [EvNode n_check_query; EvModel req])).
Proof.
  intros Hwf Hms Hq req. unfold step. simpl.
  unfold check_query, last_message. simpl. rewrite Hms, last_snoc.
  unfold_bind. simpl. rewrite Hq. simpl.
  unfold apply_update. simpl.
  rewrite (add_messages_replace_last uuid4); [| |done].
  - simpl. by rewrite <- app_assoc.
  - rewrite <- Hms. eapply ids_below_mono; [|exact Hwf]. lia.
Qed.

(** *** Answered histories *)

Lemma answered_from_app pending ms1 ms2 :
  answered_from pending ms1 = true →
  answered_from pending (ms1 ++ ms2) = answered_from [] ms2.
Proof.
  revert pending. induction ms1 as [|m ms1 IH]; intros pending H; simpl in *.
  - apply bool_decide_eq_true in H. by subst.
  - destruct m as [c i|c i|c tcs i|c nm t i].
    + apply andb_true_iff in H as [-> H]. simpl. by apply IH.
    + apply andb_true_iff in H as [-> H]. simpl. by apply IH.
    + apply andb_true_iff in H as [-> H]. simpl. by apply IH.
    + destruct pending as [|p ps]; [done|].
      apply andb_true_iff in H as [-> H]. simpl. by apply IH.
Qed.

Lemma answered_from_results (tcs : list tool_call) ms :
  Forall2 (λ tc m, ∃ c n i, m = ToolMessage c n (tc_id tc) i) tcs ms →
  answered_from (tc_id <$> tcs) ms = true.
Proof.
  induction 1 as [|tc m tcs ms (c & n & i & ->) _ IH]; simpl; [done|].
  rewrite bool_decide_eq_true_2 by done. exact IH.
Qed.

Lemma answered_request ms c tcs i results :
  answered ms = true →
  Forall2 (λ tc m, ∃ c n i, m = ToolMessage c n (tc_id tc) i) tcs results →
  answered ((ms ++ [AIMessage c tcs i]) ++ results) = true.
Proof.
  intros Hms Hres. unfold answered in *. rewrite <- app_assoc.
  rewrite answered_from_app by done. simpl.
  by apply answered_from_results.
Qed.

Lemma answered_final ms c i :
  answered ms = true → answered (ms ++ [AIMessage c [] i]) = true.
Proof.
  intros Hms. rewrite <- (app_nil_r (ms ++ _)).
  apply answered_request; [done | constructor].
Qed.

Lemma stamp_results n (tcs : list tool_call) ms :
  Forall2 (λ tc m, ∃ c n, m = ToolMessage c n (tc_id tc) None) tcs ms →
  Forall2 (λ tc m, ∃ c n i, m = ToolMessage c n (tc_id tc) i)
    tcs (stamp n ms).
Proof.
  intros H. revert n.
  induction H as [|tc m tcs ms (c & nm & ->) _ IH]; intros n; simpl.
  - constructor.
  - constructor; [eauto | apply IH].
Qed.

(** *** The invariant of the graph *)

Lemma wf_extend (st : State DB) outs k (d : DB) l :
  wf uuid4 st → k = length outs →
  wf uuid4 (MkState (messages st ++ stamp (next_uuid st) outs) d
        (next_uuid st + k) l).
Proof.
  intros Hwf ->. unfold wf. simpl. apply ids_below_app. split.
  - eapply ids_below_mono; [|exact Hwf]. lia.
  - apply ids_below_stamp.
Qed.

Lemma wf_snoc (st : State DB) c tcs (d : DB) l :
  wf uuid4 st →
  wf uuid4 (MkState (messages st ++ [AIMessage c tcs (Some (uuid4 (next_uuid st)))])
        d (S (next_uuid st)) l).
Proof.
  intros Hwf. unfold wf. simpl. apply ids_below_app. split.
  - eapply ids_below_mono; [|exact Hwf]. lia.
  - constructor; [|constructor]. exists (next_uuid st). split; [lia|done].
Qed.

Lemma check_query_key_error ms c tc tcs i (st : State DB) :
  messages st = ms ++ [AIMessage c (tc :: tcs) i] →
  tc_args tc !! "query" = None →
  stepE n_check_query st = Raise KeyError.
Proof.
  intros Hms Hq. unfold step. simpl.
  unfold check_query, last_message. simpl. rewrite Hms, last_snoc.
  unfold_bind. simpl. by rewrite Hq.
Qed.

(** Every super-step keeps the invariant; the only exception a node can
    raise on a reachable state is the [KeyError] of [check_query] on a
    candidate without [query] argument. *)
Lemma step_inv n (st : State DB) :
  inv uuid4 (At n) st →
  match stepE n st with
  | Ok (p', st') => inv uuid4 p' st'
  | Raise e => n = n_check_query ∧ e = KeyError
  end.
Proof.
  intros [Hwf Hshape]. destruct n; simpl in Hshape.
  - rewrite step_list_tables by done. split.
    + by apply wf_extend.
    + simpl. unfold answered in *. by rewrite answered_from_app.
  - rewrite step_call_get_schema by done. split.
    + by apply wf_snoc.
    + simpl. eauto 6.
  - destruct Hshape as (ms' & c & tcs & i & Hms & Hans).
    rewrite (step_tool_node n_get_schema sql_db_schema ms' c tcs i)
      by auto.
    destruct (run_all_frame sql_db_schema tcs (emit (EvNode n_get_schema) st))
      as (_ & _ & Hall).
    split.
    + apply wf_extend; [done|]. by eapply Forall2_length.
    + simpl. rewrite Hms. apply answered_request; [done|].
      by apply stamp_results.
  - rewrite step_generate_query by done.
    destruct (reply_tool_calls _) as [|tc tcs] eqn:Htcs; split;
      try by apply wf_snoc.
    + simpl. unfold reply_message. rewrite Htcs. eauto 6.
    + simpl. unfold reply_message. rewrite Htcs. eauto 8.
  - destruct Hshape as (ms' & c & tc & tcs & i & Hms & Hans).
    destruct (tc_args tc !! "query") as [q|] eqn:Hq.
    + rewrite (step_check_query ms' c tc tcs i q) by done. split.
      * unfold wf in *. simpl. rewrite Hms in Hwf.
        apply ids_below_app in Hwf as [Hms' Hlast].
        apply ids_below_app. split.
        -- eapply ids_below_mono; [|exact Hms']. lia.
        -- apply Forall_singleton in Hlast as (k & Hk & Hid).
           apply Forall_singleton. exists k. split; [lia | done].
      * simpl. unfold reply_message. eauto 6.
    + by rewrite (check_query_key_error ms' c tc tcs i).
  - destruct Hshape as (ms' & c & tcs & i & Hms & Hans).
    rewrite (step_tool_node n_run_query sql_db_query ms' c tcs i) by auto.
    destruct (run_all_frame sql_db_query tcs (emit (EvNode n_run_query) st))
      as (_ & _ & Hall).
    split.
    + apply wf_extend; [done|]. by eapply Forall2_length.
    + simpl. rewrite Hms. apply answered_request; [done|].
      by apply stamp_results.
Qed.

Lemma initial_inv q (d : DB) : inv uuid4 (At n_list_tables) (initial uuid4 q d).
Proof.
  split; [|done]. unfold wf. simpl.
  constructor; [|constructor]. exists 0. split; [lia | done].
Qed.

Lemma run_inv k p (st : State DB) p' st' :
  inv uuid4 p st → runE k p st = Ok (p', st') → inv uuid4 p' st'.
Proof.
  revert p st. induction k as [|k IH]; intros p st Hinv Hrun; simpl in Hrun.
  - by injection Hrun as <- <-.
  - destruct p as [n|]; [|by injection Hrun as <- <-].
    pose proof (step_inv n st Hinv) as Hstep.
    destruct (stepE n st) as [[p1 st1]|e]; [|done].
    by eapply IH.
Qed.

Lemma run_add a b p (st : State DB) :
  runE (a + b) p st = '(p', st') ← runE a p st; runE b p' st'.
Proof.
  revert p st. induction a as [|a IH]; intros p st; simpl; [done|].
  destruct p as [n|]; simpl.
  - destruct (stepE n st) as [[p1 st1]|e]; simpl; [apply IH | done].
  - by destruct b.
Qed.

(** A run that is at a node after [a + b] super-steps was at a node
    after [a]. *)
Lemma run_prefix a b p (st : State DB) n' st' :
  runE (a + b) p st = Ok (At n', st') →
  ∃ n1 st1, runE a p st = Ok (At n1, st1).
Proof.
  rewrite run_add. unfold_bind.
  destruct (runE a p st) as [[[n1|] st1]|e]; simpl; [by eauto| |done].
  by destruct b.
Qed.

(** *** The first node *)

(** C9: from any well-formed state, [list_tables] calls the table-listing
    tool of the data source without any model call and appends exactly
    three messages: the tool-call request with identifier [abc123], the
    tool result with the table names joined by commas, and the summary
    [Available tables: ...] made of the same names; control then goes to
    [call_get_schema] and the data source is unchanged. *)
Theorem list_tables_appends_three (st : State DB) :
  wf uuid4 st →
  let tool_call := ToolCall "sql_db_list_tables" ∅ "abc123" in
  let names := String.concat ", " (db_tables (db st)) in
  let n := next_uuid st in
  ∃ st',
    stepE n_list_tables st = Ok (At n_call_get_schema, st')
    ∧ messages st'
      = messages st ++
          [AIMessage "" [tool_call] (Some (uuid4 n));
           ToolMessage names "sql_db_list_tables" "abc123"
             (Some (uuid4 (S n)));
           AIMessage ("Available tables: " +:+ names) []
             (Some (uuid4 (S (S n))))]
    ∧ log st'
      = log st ++ [EvNode n_list_tables;
                   EvTool sql_db_list_tables tool_call (db st)]
    ∧ model_calls_of (log st') = model_calls_of (log st)
    ∧ db st' = db st.
Proof.
  intros Hwf tool_call names n. eexists. split.
  - by apply step_list_tables.
  - simpl. repeat split. unfold model_calls_of.
    rewrite omap_app. simpl. by rewrite app_nil_r.
Qed.

(** *** What a super-step adds to the events *)

Lemma nodes_of_app (l1 l2 : list (event DB)) :
  nodes_of (l1 ++ l2) = nodes_of l1 ++ nodes_of l2.
Proof. apply omap_app. Qed.

Lemma model_calls_of_app (l1 l2 : list (event DB)) :
  model_calls_of (l1 ++ l2) = model_calls_of l1 ++ model_calls_of l2.
Proof. apply omap_app. Qed.

Lemma run_one_events t tc (st : State DB) :
  nodes_of (log (run_oneE t tc st).2) = nodes_of (log st)
  ∧ model_calls_of (log (run_oneE t tc st).2) = model_calls_of (log st).
Proof.
  unfold run_one, tool_invoke. case_decide; [|done].
  destruct (tool_runE _ _ _) as [d' out]. simpl.
  rewrite nodes_of_app, model_calls_of_app. simpl.
  by rewrite !app_nil_r.
Qed.

Lemma run_all_events t tcs (st : State DB) :
  nodes_of (log (run_allE t tcs st).2) = nodes_of (log st)
  ∧ model_calls_of (log (run_allE t tcs st).2) = model_calls_of (log st).
Proof.
  revert st. induction tcs as [|tc tcs IH]; intros st; simpl; [done|].
  destruct (run_one_events t tc st) as [Hn Hm].
  destruct (run_oneE _ _ _) as [m st1]. simpl in *.
  destruct (IH st1) as [Hn' Hm'].
  destruct (run_allE _ _ _) as [ms st2]. simpl in *.
  split; congruence.
Qed.

Lemma apply_update_frame upd (st : State DB) :
  log (apply_update uuid4 upd st) = log st
  ∧ db (apply_update uuid4 upd st) = db st.
Proof. unfold apply_update. by destruct (add_messages _ _ _ _). Qed.

(** A node function adds its own events after the entry of the node. *)
Lemma node_fn_nodes n (st : State DB) upd st1 :
  node_fn uuid4 llm db_tables db_schema db_run arg_error n st
    = Ok (upd, st1) →
  nodes_of (log st1) = nodes_of (log st).
Proof.
  destruct n; simpl.
  - unfold list_tables, tool_invoke. simpl. intros [= <- <-]. simpl.
    rewrite nodes_of_app. simpl. by rewrite app_nil_r.
  - unfold call_get_schema. simpl. intros [= <- <-]. simpl.
    rewrite nodes_of_app. simpl. by rewrite app_nil_r.
  - unfold get_schema_node, tool_node.
    destruct (last (messages st)) as [[| |c tcs i|]|]; try done.
    intros [= Hrun]. pose proof (run_all_events sql_db_schema tcs st) as [H _].
    by rewrite Hrun in H.
  - unfold generate_query. simpl. intros [= <- <-]. simpl.
    rewrite nodes_of_app. simpl. by rewrite app_nil_r.
  - unfold check_query, last_message.
    destruct (last (messages st)) as [m|]; [|done]. unfold_bind. simpl.
    destruct (get_tool_calls m) as [[|tc tcs]|]; try done. simpl.
    destruct (tc_args tc !! "query"); [|done]. simpl.
    intros [= <- <-]. simpl.
    rewrite nodes_of_app. simpl. by rewrite app_nil_r.
  - unfold run_query_node, tool_node.
    destruct (last (messages st)) as [[| |c tcs i|]|]; try done.
    intros [= Hrun]. pose proof (run_all_events sql_db_query tcs st) as [H _].
    by rewrite Hrun in H.
Qed.

Lemma step_nodes n (st : State DB) p st' :
  stepE n st = Ok (p, st') → nodes_of (log st') = nodes_of (log st) ++ [n].
Proof.
  unfold step. unfold_bind.
  destruct (node_fn _ _ _ _ _ _ _ _) as [[upd st1]|e] eqn:Hfn; [|done].
  apply node_fn_nodes in Hfn. simpl in Hfn.
  destruct (edge n _) as [p1|e]; [|done]. intros [= <- <-].
  destruct (apply_update_frame upd st1) as [-> _].
  rewrite Hfn, nodes_of_app. done.
Qed.

(** The edges out of the cycle stay on the cycle or end the run. *)
Lemma step_cycle n (st : State DB) p st' :
  in_cycle n → stepE n st = Ok (p, st') →
  p = END ∨ ∃ n', p = At n' ∧ in_cycle n'.
Proof.
  unfold step, in_cycle. unfold_bind. intros Hn.
  destruct (node_fn _ _ _ _ _ _ _ _) as [[upd st1]|e]; [|done].
  destruct (edge n _) as [p1|e] eqn:Hedge; [|done]. intros [= <- <-].
  destruct Hn as [->|[->| ->]]; simpl in Hedge.
  - unfold should_continue in Hedge. unfold_bind.
    destruct (last_message _); [|done].
    destruct (get_tool_calls _) as [[|tc tcs]|]; [| |done].
    + left. congruence.
    + right. exists n_check_query. split; [congruence | auto].
  - right. exists n_run_query. split; [congruence | auto].
  - right. exists n_generate_query. split; [congruence | auto].
Qed.

Lemma run_cycle_nodes k n (st : State DB) p st' :
  in_cycle n → runE k (At n) st = Ok (p, st') →
  ∃ rest, nodes_of (log st') = nodes_of (log st) ++ rest
          ∧ Forall in_cycle rest.
Proof.
  revert n st. induction k as [|k IH]; intros n st Hn Hrun; simpl in Hrun.
  - injection Hrun as <- <-. exists []. by rewrite app_nil_r.
  - unfold_bind. destruct (stepE n st) as [[p1 st1]|e] eqn:Hstep; [|done].
    pose proof (step_nodes _ _ _ _ Hstep) as Hnodes.
    destruct (step_cycle _ _ _ _ Hn Hstep) as [->|(n' & -> & Hn')].
    + destruct k; injection Hrun as <- <-; exists [n];
        (split; [done | by constructor]).
    + destruct (IH n' st1 Hn' Hrun) as (rest & Hrest & Hall).
      exists (n :: rest). split; [|by constructor].
      rewrite Hrest, Hnodes. by rewrite <- app_assoc.
Qed.

(** *** Schema discovery *)

(** The first three super-steps of a fresh conversation never raise. *)
Lemma run_step k n (st : State DB) p1 st1 :
  stepE n st = Ok (p1, st1) → runE (S k) (At n) st = runE k p1 st1.
Proof. intros H. simpl. by rewrite H. Qed.

Lemma invoke_three q (d : DB) :
  ∃ st, invokeE 3 q d = Ok (At n_generate_query, st)
        ∧ nodes_of (log st)
          = [n_list_tables; n_call_get_schema; n_get_schema]
        ∧ ∃ ms, model_calls_of (log st) = [schema_request ms].
Proof.
  unfold invoke. pose proof (initial_inv q d) as Hinv.
  set (st0 := initial uuid4 q d) in *.
  pose proof (step_inv _ _ Hinv) as Hinv1.
  destruct (stepE n_list_tables st0) as [[p1 st1]|e] eqn:H1;
    [|by destruct Hinv1].
  pose proof H1 as H1'. rewrite step_list_tables in H1' by apply Hinv.
  injection H1' as <- Hst1.
  pose proof (step_inv _ _ Hinv1) as Hinv2.
  destruct (stepE n_call_get_schema st1) as [[p2 st2]|e] eqn:H2;
    [|by destruct Hinv2].
  pose proof H2 as H2'. rewrite step_call_get_schema in H2' by apply Hinv1.
  injection H2' as <- Hst2.
  destruct Hinv2 as [Hwf (ms' & c & tcs & i & Hms & _)].
  pose proof (step_tool_node n_get_schema sql_db_schema ms' c tcs i st2
                (or_introl (conj eq_refl eq_refl)) Hwf Hms) as H3.
  simpl in H3.
  eexists. split; [|split].
  - rewrite (run_step _ _ _ _ _ H1), (run_step _ _ _ _ _ H2).
    by rewrite (run_step _ _ _ _ _ H3).
  - simpl.
    destruct (run_all_events sql_db_schema tcs (emit (EvNode n_get_schema) st2))
      as [-> _].
    rewrite <- Hst2, <- Hst1. simpl.
    by rewrite ?nodes_of_app.
  - exists (messages st1). simpl.
    destruct (run_all_events sql_db_schema tcs (emit (EvNode n_get_schema) st2))
      as [_ ->].
    rewrite <- Hst2, <- Hst1. simpl.
    by rewrite ?model_calls_of_app.
Qed.

(** *** Leaving the cycle *)

Lemma run_END k (st : State DB) : runE k END st = Ok (END, st).
Proof. by destruct k. Qed.

Lemma invoke_inv k q (d : DB) p st :
  invokeE k q d = Ok (p, st) → inv uuid4 p st.
Proof. apply run_inv, initial_inv. Qed.

(** C3: when the run is at [generate_query] and the model answers
    without tool call, the next super-step reaches [END] and the run
    stays there: the only events added are that node and its model call,
    the data source is untouched, the answer is the last message, and
    the endpoint returns its text as [result]. *)
Theorem answer_without_tool_call_ends_run k q (d : DB) st :
  invokeE k q d = Ok (At n_generate_query, st) →
  let req := generate_request (messages st) in
  reply_tool_calls (llm req) = [] →
  ∀ j, ∃ st',
    invokeE (k + S j) q d = Ok (END, st')
    ∧ last (messages st')
      = Some (AIMessage (reply_content (llm req)) []
                (Some (uuid4 (next_uuid st))))
    ∧ log st' = log st ++ [EvNode n_generate_query; EvModel req]
    ∧ db st' = db st
    ∧ ∀ active request,
        active !! QueryRequest.session_id request = Some d →
        QueryRequest.query request = q →
        ∃ r, query_database uuid4 llm db_tables db_schema db_run arg_error
               (k + S j) active request = Http200 r
             ∧ QueryResponse.result r = reply_content (llm req).
Proof.
  intros Hk req Hreply j.
  pose proof (invoke_inv _ _ _ _ _ Hk) as [Hwf _].
  pose proof (step_generate_query st Hwf) as Hstep. simpl in Hstep.
  fold req in Hstep. rewrite Hreply in Hstep.
  assert (∀ st', stepE n_generate_query st = Ok (END, st') →
                 invokeE (k + S j) q d = Ok (END, st')) as Hrun.
  { intros st' Hst'. unfold invoke in *. rewrite run_add, Hk.
    change (runE (S j) (At n_generate_query) st = Ok (END, st')).
    by rewrite (run_step _ _ _ _ _ Hst'), run_END. }
  eexists. split; [|split; [|split; [|split]]].
  - apply Hrun, Hstep.
  - simpl. rewrite last_snoc. unfold reply_message. by rewrite Hreply.
  - done.
  - done.
  - intros active request Hd Hq. unfold query_database, agent_invoke.
    rewrite Hd, Hq, (Hrun _ Hstep).
    unfold build_response. simpl. rewrite last_snoc. eauto.
Qed.

(** *** A model that always asks for a query *)

Lemma step_always_query n (st : State DB) :
  llm = Demo.always_query → in_cycle n → inv uuid4 (At n) st →
  (n = n_check_query →
   ∃ ms i, messages st
           = ms ++ [AIMessage "" [Demo.query_call "SELECT 1" "call_1"] i]) →
  ∃ st', stepE n st = Ok (At (next_in_cycle n), st')
         ∧ (next_in_cycle n = n_check_query →
            ∃ ms i, messages st'
                    = ms ++ [AIMessage ""
                               [Demo.query_call "SELECT 1" "call_1"] i]).
Proof.
  intros Hllm Hn [Hwf Hshape] Hcand.
  destruct Hn as [->|[->| ->]]; simpl.
  - rewrite step_generate_query by done. rewrite Hllm. simpl.
    eexists. split; [done|]. intros _. simpl. eauto.
  - destruct (Hcand eq_refl) as (ms & i & Hms).
    rewrite (step_check_query ms "" _ [] i "SELECT 1") by done.
    eexists. split; [done|]. done.
  - simpl in Hshape. destruct Hshape as (ms' & c & tcs & i & Hms & _).
    rewrite (step_tool_node n_run_query sql_db_query ms' c tcs i) by auto.
    eexists. split; [done|]. done.
Qed.

Lemma run_always_query k n (st : State DB) :
  llm = Demo.always_query → in_cycle n → inv uuid4 (At n) st →
  (n = n_check_query →
   ∃ ms i, messages st
           = ms ++ [AIMessage "" [Demo.query_call "SELECT 1" "call_1"] i]) →
  ∃ st', runE k (At n) st = Ok (At (Nat.iter k next_in_cycle n), st').
Proof.
  intros Hllm. revert n st.
  induction k as [|k IH]; intros n st Hn Hinv Hcand; [by eexists|].
  destruct (step_always_query n st Hllm Hn Hinv Hcand)
    as (st1 & Hstep & Hcand1).
  rewrite (run_step _ _ _ _ _ Hstep), Nat.iter_succ_r.
  apply IH; [| |done].
  - unfold in_cycle in *. destruct Hn as [->|[->| ->]]; simpl; auto.
  - pose proof (step_inv n st Hinv) as H. by rewrite Hstep in H.
Qed.

(** *** The tool node in closed form *)

Lemma run_one_spec t tc (st : State DB) :
  run_oneE t tc st
  = (answer_ofE t (db st) tc,
     MkState (messages st) (db_stepE t (db st) tc) (next_uuid st)
       (log st ++ invocationsE t (db st) [tc])).
Proof.
  unfold run_one, answer_of, db_step, tool_invoke. simpl.
  case_decide; simpl.
  - by destruct (tool_runE _ _ _) as [d' out].
  - rewrite app_nil_r. by destruct st.
Qed.

Lemma run_all_spec t tcs (st : State DB) :
  run_allE t tcs st
  = (answersE t (db st) tcs,
     MkState (messages st) (db_afterE t (db st) tcs) (next_uuid st)
       (log st ++ invocationsE t (db st) tcs)).
Proof.
  revert st. induction tcs as [|tc tcs IH]; intros st; simpl.
  - rewrite app_nil_r. by destruct st.
  - rewrite run_one_spec, IH. simpl. rewrite app_nil_r.
    by rewrite <- app_assoc.
Qed.

Lemma answers_lookup t (d : DB) tcs n tc :
  tcs !! n = Some tc →
  answersE t d tcs !! n = Some (answer_ofE t (db_afterE t d (take n tcs)) tc).
Proof.
  revert d n. induction tcs as [|tc' tcs IH]; intros d n H; [done|].
  destruct n as [|n]; simpl in *.
  - by injection H as ->.
  - by apply IH.
Qed.

Lemma stamp_lookup n ms j :
  stamp n ms !! j = set_id (Some (uuid4 (n + j))) <$> ms !! j.
Proof.
  revert n j. induction ms as [|m ms IH]; intros n j; [done|].
  destruct j as [|j]; simpl.
  - by rewrite Nat.add_0_r.
  - rewrite IH. by rewrite Nat.add_succ_r.
Qed.

Lemma answers_shape t (d : DB) tcs :
  Forall2 (λ tc m, ∃ content, m = ToolMessage content (tc_name tc) (tc_id tc) None)
    tcs (answersE t d tcs).
Proof.
  revert d. induction tcs as [|tc tcs IH]; intros d; simpl; constructor.
  - unfold answer_of. case_decide as Hn; [rewrite <- Hn|]; eauto.
  - apply IH.
Qed.

(** *** Execution errors *)

(** C7: from a reachable state at [run_query], whatever the calls of the
    last message, the super-step raises nothing and hands control back to
    [generate_query], having appended one tool message per call; and when
    the data source fails on the statement of a [sql_db_query] call, the
    tool message that answers this call carries the error text. *)
Theorem execution_error_is_fed_back k q (d : DB) st c tcs i :
  invokeE k q d = Ok (At n_run_query, st) →
  last (messages st) = Some (AIMessage c tcs i) →
  ∃ st',
    invokeE (S k) q d = Ok (At n_generate_query, st')
    ∧ messages st'
      = messages st ++ stamp (next_uuid st) (answersE sql_db_query (db st) tcs)
    ∧ length (answersE sql_db_query (db st) tcs) = length tcs
    ∧ ∀ n tc stmt d' e,
        tcs !! n = Some tc →
        tc_name tc = "sql_db_query"%string →
        tc_args tc !! "query" = Some stmt →
        db_run (db_afterE sql_db_query (db st) (take n tcs)) stmt
          = (d', SqlError e) →
        messages st' !! (length (messages st) + n)
        = Some (ToolMessage ("Error: " +:+ e) "sql_db_query" (tc_id tc)
                  (Some (uuid4 (next_uuid st + n)))).
Proof.
  intros Hk Hlast.
  pose proof (invoke_inv _ _ _ _ _ Hk) as [Hwf _].
  apply last_Some in Hlast as [ms Hms].
  pose proof (step_tool_node n_run_query sql_db_query ms c tcs i st
                (or_intror (conj eq_refl eq_refl)) Hwf Hms) as Hstep.
  simpl in Hstep. rewrite run_all_spec in Hstep. simpl in Hstep.
  eexists. split; [|split; [|split]].
  - unfold invoke in *. replace (S k) with (k + 1) by lia.
    rewrite run_add, Hk.
    exact (eq_trans (run_step 0 _ _ _ _ Hstep) eq_refl).
  - done.
  - symmetry. eapply Forall2_length, answers_shape.
  - intros n tc stmt d' e Htc Hname Hstmt Hfail. simpl.
    rewrite lookup_app_r by lia.
    replace (length (messages st) + n - length (messages st)) with n by lia.
    rewrite stamp_lookup, (answers_lookup _ _ _ _ _ Htc). simpl.
    unfold answer_of. rewrite decide_True by done. simpl.
    rewrite Hstmt, Hfail. done.
Qed.

(** *** The check of a candidate *)

(** C2, as the code has it: a successful [check_query] step puts the
    model's checked query in the place of the candidate, as the last
    message and under the candidate's message identifier (the one the
    reducer matches on); the conversation keeps its length.  The tool
    calls of the checked message, with their identifiers, are those of
    the model's answer to the check. *)
Theorem checked_query_takes_candidate_message_id k q (d : DB) st cand p st' :
  invokeE k q d = Ok (At n_check_query, st) →
  last (messages st) = Some cand →
  stepE n_check_query st = Ok (p, st') →
  ∃ ms tc rest stmt,
    messages st = ms ++ [cand]
    ∧ msg_tool_calls cand = Some (tc :: rest)
    ∧ tc_args tc !! "query" = Some stmt
    ∧ p = At n_run_query
    ∧ messages st'
      = ms ++ [reply_message (llm (check_request stmt)) (msg_id cand)]
    ∧ msg_id <$> last (messages st') = Some (msg_id cand)
    ∧ length (messages st') = length (messages st).
Proof.
  intros Hk Hlast Hstep.
  pose proof (invoke_inv _ _ _ _ _ Hk) as [Hwf Hshape]. simpl in Hshape.
  destruct Hshape as (ms & c & tc & tcs & i & Hms & _).
  rewrite Hms, last_snoc in Hlast. injection Hlast as <-.
  destruct (tc_args tc !! "query") as [stmt|] eqn:Hq.
  - rewrite (step_check_query ms c tc tcs i stmt) in Hstep by done.
    injection Hstep as <- <-. exists ms, tc, tcs, stmt. simpl.
    rewrite last_snoc, Hms, !length_app. done.
  - by rewrite (check_query_key_error ms c tc tcs i) in Hstep.
Qed.

(** *** Requests and their results *)

Lemma run_invariant (P : place → State DB → Prop) p0 st0 :
  P p0 st0 →
  (∀ n st p' st',
      P (At n) st → stepE n st = Ok (p', st') → P p' st') →
  ∀ k p st, runE k p0 st0 = Ok (p, st) → P p st.
Proof.
  intros H0 Hstep k. revert p0 st0 H0.
  induction k as [|k IH]; intros p0 st0 H0 p st Hrun; simpl in Hrun.
  - by injection Hrun as <- <-.
  - destruct p0 as [n|]; [|by injection Hrun as <- <-].
    unfold_bind. destruct (stepE n st0) as [[p1 st1]|e] eqn:H1; [|done].
    eapply IH; [|exact Hrun]. by eapply Hstep.
Qed.

Lemma step_model_calls n (st : State DB) p' st' :
  inv uuid4 (At n) st → stepE n st = Ok (p', st') →
  model_calls_of (log st')
  = model_calls_of (log st) ++
      match n with
      | n_call_get_schema => [schema_request (messages st)]
      | n_generate_query => [generate_request (messages st)]
      | n_check_query =>
          match last (messages st) ≫= msg_tool_calls with
          | Some (tc :: _) => check_request <$> option_list (tc_args tc !! "query")
          | _ => []
          end
      | _ => []
      end.
Proof.
  intros [Hwf Hshape] Hstep. destruct n; simpl in Hshape.
  - rewrite step_list_tables in Hstep by done. injection Hstep as <- <-.
    simpl. by rewrite model_calls_of_app.
  - rewrite step_call_get_schema in Hstep by done. injection Hstep as <- <-.
    simpl. by rewrite model_calls_of_app.
  - destruct Hshape as (ms' & c & tcs & i & Hms & _).
    rewrite (step_tool_node n_get_schema sql_db_schema ms' c tcs i) in Hstep
      by auto.
    injection Hstep as <- <-. simpl.
    destruct (run_all_events sql_db_schema tcs (emit (EvNode n_get_schema) st))
      as [_ ->].
    simpl. by rewrite model_calls_of_app.
  - rewrite step_generate_query in Hstep by done. injection Hstep as <- <-.
    simpl. by rewrite model_calls_of_app.
  - destruct Hshape as (ms' & c & tc & tcs & i & Hms & _).
    rewrite Hms, last_snoc. simpl.
    destruct (tc_args tc !! "query") as [stmt|] eqn:Hq.
    + rewrite (step_check_query ms' c tc tcs i stmt) in Hstep by done.
      injection Hstep as <- <-. simpl. by rewrite model_calls_of_app.
    + by rewrite (check_query_key_error ms' c tc tcs i) in Hstep.
  - destruct Hshape as (ms' & c & tcs & i & Hms & _).
    rewrite (step_tool_node n_run_query sql_db_query ms' c tcs i) in Hstep
      by auto.
    injection Hstep as <- <-. simpl.
    destruct (run_all_events sql_db_query tcs (emit (EvNode n_run_query) st))
      as [_ ->].
    simpl. by rewrite model_calls_of_app.
Qed.

(** C5, as the code has it: whenever the history is handed to the model
    ([call_get_schema], [generate_query]) and when the run has ended,
    every request in it is directly followed by exactly one tool result
    per tool call, in call order and with the call's identifier; this
    holds for every history ever sent by these two nodes.  When the model
    is called by [check_query], the candidate, which is the last message
    and carries at least one call, is still unanswered, and everything
    before it is answered. *)
Theorem requests_answered_when_history_is_sent k q (d : DB) p st :
  invokeE k q d = Ok (p, st) →
  (p = At n_call_get_schema ∨ p = At n_generate_query ∨ p = END →
   answered (messages st) = true)
  ∧ (p = At n_check_query →
     ∃ ms c tc tcs i,
       messages st = ms ++ [AIMessage c (tc :: tcs) i]
       ∧ answered ms = true ∧ answered (messages st) = false)
  ∧ ∀ ms, schema_request ms ∈ model_calls_of (log st)
          ∨ generate_request ms ∈ model_calls_of (log st) →
          answered ms = true.
Proof.
  intros Hk. pose proof (invoke_inv _ _ _ _ _ Hk) as [Hwf Hshape].
  split; [|split].
  - intros [->|[->| ->]]; simpl in Hshape; [done | done |].
    destruct Hshape as (ms & c & i & -> & Hans). by apply answered_final.
  - intros ->. simpl in Hshape.
    destruct Hshape as (ms & c & tc & tcs & i & Hms & Hans).
    exists ms, c, tc, tcs, i. repeat split; [done | done |].
    rewrite Hms. unfold answered in *. by rewrite answered_from_app.
  - clear Hwf Hshape. revert k p st Hk. unfold invoke.
    apply (run_invariant (λ p st,
             inv uuid4 p st
             ∧ ∀ ms, schema_request ms ∈ model_calls_of (log st)
                     ∨ generate_request ms ∈ model_calls_of (log st) →
                     answered ms = true)).
    + split; [apply initial_inv|]. simpl. intros ms [H|H]; inversion H.
    + intros n st p' st' [Hinv Hlog] Hstep. split.
      { pose proof (step_inv n st Hinv) as H. by rewrite Hstep in H. }
      intros ms. rewrite (step_model_calls n st p' st' Hinv Hstep).
      rewrite !elem_of_app. intros Hin.
      assert (schema_request ms ∈ model_calls_of (log st)
              ∨ generate_request ms ∈ model_calls_of (log st)
              ∨ (n = n_call_get_schema ∧ ms = messages st)
              ∨ (n = n_generate_query ∧ ms = messages st)) as Hcases.
      { destruct n; simpl in Hin;
          try (destruct Hin as [[?|Hin]|[?|Hin]]; auto;
               try (by inversion Hin)).
        - apply list_elem_of_singleton in Hin. injection Hin as ->. auto.
        - apply list_elem_of_singleton in Hin. discriminate.
        - apply list_elem_of_singleton in Hin. discriminate.
        - apply list_elem_of_singleton in Hin. injection Hin as ->. auto.
        - destruct (last (messages st) ≫= msg_tool_calls) as [[|tc ?]|];
            try by inversion Hin.
          destruct (tc_args tc !! "query"); simpl in Hin;
            [|by inversion Hin].
          apply list_elem_of_singleton in Hin. discriminate.
        - destruct (last (messages st) ≫= msg_tool_calls) as [[|tc ?]|];
            try by inversion Hin.
          destruct (tc_args tc !! "query"); simpl in Hin;
            [|by inversion Hin].
          apply list_elem_of_singleton in Hin. discriminate. }
      destruct Hcases as [H|[H|[[-> ->]|[-> ->]]]]; auto.
      * by destruct Hinv as [_ Hs].
      * by destruct Hinv as [_ Hs].
Qed.

(** *** The executor *)

Lemma db_after_snoc t (d : DB) tcs tc :
  db_afterE t d (tcs ++ [tc]) = db_stepE t (db_afterE t d tcs) tc.
Proof. unfold db_after. by rewrite foldl_snoc. Qed.

Lemma db_after_schema (d : DB) tcs : db_afterE sql_db_schema d tcs = d.
Proof.
  revert d. induction tcs as [|tc tcs IH]; intros d; [done|].
  unfold db_after in *. simpl. rewrite <- (IH d) at 2. f_equal.
  unfold db_step, tool_run. case_decide; [|done].
  by destruct (tc_args tc !! "table_names").
Qed.

(** A statement that changes no row count leaves the counts as they are,
    call after call. *)
Lemma db_after_row_counts (d : DB) tcs :
  (∀ tc d0 stmt,
      EvTool sql_db_query tc d0 ∈ invocationsE sql_db_query d tcs →
      tc_args tc !! "query" = Some stmt →
      row_counts (db_run d0 stmt).1 = row_counts d0) →
  row_counts (db_afterE sql_db_query d tcs) = row_counts d.
Proof.
  revert d. induction tcs as [|tc tcs IH]; intros d H; [done|].
  simpl in H. change (db_afterE sql_db_query d (tc :: tcs))
    with (db_afterE sql_db_query (db_stepE sql_db_query d tc) tcs).
  rewrite IH.
  - unfold db_step. simpl.
    destruct (decide (tc_name tc = "sql_db_query"%string)) as [Hn|Hn];
      [|done].
    unfold tool_run.
    destruct (tc_args tc !! "query") as [stmt|] eqn:Hq; [|done].
    specialize (H tc d stmt).
    destruct (db_run d stmt) as [d' r] eqn:Hrun. simpl in *.
    apply H; [|done]. apply list_elem_of_here.
  - intros tc' d0 stmt Hin. apply H. apply elem_of_app. by right.
Qed.

Lemma step_row_counts n (st : State DB) p' st' :
  inv uuid4 (At n) st → stepE n st = Ok (p', st') →
  ∃ evs, log st' = log st ++ evs
         ∧ ((∀ tc d0 stmt,
                EvTool sql_db_query tc d0 ∈ evs →
                tc_args tc !! "query" = Some stmt →
                row_counts (db_run d0 stmt).1 = row_counts d0) →
            row_counts (db st') = row_counts (db st)).
Proof.
  intros [Hwf Hshape] Hstep. destruct n; simpl in Hshape.
  - rewrite step_list_tables in Hstep by done. injection Hstep as <- <-.
    eexists. split; done.
  - rewrite step_call_get_schema in Hstep by done. injection Hstep as <- <-.
    eexists. split; done.
  - destruct Hshape as (ms' & c & tcs & i & Hms & _).
    rewrite (step_tool_node n_get_schema sql_db_schema ms' c tcs i) in Hstep
      by auto.
    rewrite run_all_spec in Hstep. injection Hstep as <- <-. simpl.
    eexists. split; [by rewrite <- app_assoc|].
    by rewrite db_after_schema.
  - rewrite step_generate_query in Hstep by done. injection Hstep as <- <-.
    eexists. split; done.
  - destruct Hshape as (ms' & c & tc & tcs & i & Hms & _).
    destruct (tc_args tc !! "query") as [stmt|] eqn:Hq.
    + rewrite (step_check_query ms' c tc tcs i stmt) in Hstep by done.
      injection Hstep as <- <-. eexists. split; done.
    + by rewrite (check_query_key_error ms' c tc tcs i) in Hstep.
  - destruct Hshape as (ms' & c & tcs & i & Hms & _).
    rewrite (step_tool_node n_run_query sql_db_query ms' c tcs i) in Hstep
      by auto.
    rewrite run_all_spec in Hstep. injection Hstep as <- <-. simpl.
    eexists. split; [by rewrite <- app_assoc|].
    intros H. apply db_after_row_counts.
    intros tc d0 stmt Hin. apply H. simpl. by right.
Qed.

(** C1, as the code has it: the executor checks no statement.  From a
    reachable state at [run_query], every [sql_db_query] call of the last
    message has its [query] text, whatever it is, run on the data source
    as it stands after the calls before it, and the output of the data
    source (rows, or the error text) becomes the tool message of the
    call; the DML prohibition is only the last line of the instruction
    given to the model in [generate_query].  The row counts at any point
    of a run are those of its start provided every statement run so far
    left them unchanged. *)
Theorem executor_runs_every_statement k q (d : DB) p st :
  invokeE k q d = Ok (p, st) →
  (∀ c tcs i,
      p = At n_run_query →
      last (messages st) = Some (AIMessage c tcs i) →
      ∃ st',
        invokeE (S k) q d = Ok (At n_generate_query, st')
        ∧ db st' = db_afterE sql_db_query (db st) tcs
        ∧ ∀ n tc stmt,
            tcs !! n = Some tc →
            tc_name tc = "sql_db_query"%string →
            tc_args tc !! "query" = Some stmt →
            let dn := db_afterE sql_db_query (db st) (take n tcs) in
            EvTool sql_db_query tc dn ∈ log st'
            ∧ db_afterE sql_db_query (db st) (take (S n) tcs)
              = (db_run dn stmt).1
            ∧ messages st' !! (length (messages st) + n)
              = Some (ToolMessage (run_no_throw_text (db_run dn stmt).2)
                        "sql_db_query" (tc_id tc)
                        (Some (uuid4 (next_uuid st + n)))))
  ∧ ((∀ tc d0 stmt,
         EvTool sql_db_query tc d0 ∈ log st →
         tc_args tc !! "query" = Some stmt →
         row_counts (db_run d0 stmt).1 = row_counts d0) →
     row_counts (db st) = row_counts d).
Proof.
  intros Hk. split.
  - intros c tcs i -> Hlast.
    pose proof (invoke_inv _ _ _ _ _ Hk) as [Hwf _].
    apply last_Some in Hlast as [ms Hms].
    pose proof (step_tool_node n_run_query sql_db_query ms c tcs i st
                  (or_intror (conj eq_refl eq_refl)) Hwf Hms) as Hstep.
    simpl in Hstep. rewrite run_all_spec in Hstep. simpl in Hstep.
    eexists. split; [|split].
    + unfold invoke in *. replace (S k) with (k + 1) by lia.
      rewrite run_add, Hk.
      exact (eq_trans (run_step 0 _ _ _ _ Hstep) eq_refl).
    + done.
    + intros n tc stmt Htc Hname Hstmt dn. simpl. split; [|split].
      * apply elem_of_app. right.
        clear Hstep Hms Hwf Hk. revert n Htc dn. generalize (db st).
        induction tcs as [|tc' tcs IH]; intros d1 n Htc dn; [done|].
        destruct n as [|n]; simpl in *.
        -- injection Htc as ->. rewrite decide_True by done.
           apply list_elem_of_here.
        -- apply elem_of_app. right. by apply IH.
      * rewrite (take_S_r _ _ _ Htc), db_after_snoc. fold dn.
        unfold db_step. rewrite decide_True by done.
        unfold tool_run. rewrite Hstmt.
        by destruct (db_run dn stmt).
      * rewrite lookup_app_r by lia.
        replace (length (messages st) + n - length (messages st)) with n
          by lia.
        rewrite stamp_lookup, (answers_lookup _ _ _ _ _ Htc). simpl.
        unfold answer_of. rewrite decide_True by done. simpl.
        rewrite Hstmt. fold dn. by destruct (db_run dn stmt).
  - revert k p st Hk. unfold invoke.
    apply (run_invariant (λ p st,
             inv uuid4 p st
             ∧ ((∀ tc d0 stmt,
                    EvTool sql_db_query tc d0 ∈ log st →
                    tc_args tc !! "query" = Some stmt →
                    row_counts (db_run d0 stmt).1 = row_counts d0) →
                row_counts (db st) = row_counts d))).
    + split; [apply initial_inv | done].
    + intros n st p' st' [Hinv Hrc] Hstep. split.
      { pose proof (step_inv n st Hinv) as H. by rewrite Hstep in H. }
      destruct (step_row_counts n st p' st' Hinv Hstep) as (evs & Hlog & Hevs).
      intros H. rewrite Hevs, Hrc; [done| |].
      * intros tc d0 stmt Hin. apply H. rewrite Hlog.
        apply elem_of_app. by left.
      * intros tc d0 stmt Hin. apply H. rewrite Hlog.
        apply elem_of_app. by right.
Qed.

(** *** What a super-step does to the history *)

Lemma stamp_ids_seq n ms :
  msg_id <$> stamp n ms
  = (λ k, Some (uuid4 k)) <$> seq n (length (stamp n ms)).
Proof.
  revert n. induction ms as [|m ms IH]; intros n; [done|].
  simpl. by rewrite msg_id_set_id, IH.
Qed.

(** Every node but [check_query] appends messages with the next fresh
    identifiers; [check_query] puts one message in the place of the last,
    under the same identifier. *)
Lemma step_history n (st : State DB) p' st' :
  inv uuid4 (At n) st → stepE n st = Ok (p', st') →
  (n ≠ n_check_query
   ∧ ∃ new, messages st' = messages st ++ new
            ∧ msg_id <$> new
              = (λ k, Some (uuid4 k)) <$> seq (next_uuid st) (length new))
  ∨ (n = n_check_query
     ∧ ∃ ms m m', messages st = ms ++ [m] ∧ messages st' = ms ++ [m']
                  ∧ msg_id m' = msg_id m).
Proof.
  intros [Hwf Hshape] Hstep. destruct n; simpl in Hshape.
  - rewrite step_list_tables in Hstep by done. injection Hstep as <- <-.
    left. split; [done|]. eexists. split; done.
  - rewrite step_call_get_schema in Hstep by done. injection Hstep as <- <-.
    left. split; [done|]. eexists. split; done.
  - destruct Hshape as (ms' & c & tcs & i & Hms & _).
    rewrite (step_tool_node n_get_schema sql_db_schema ms' c tcs i) in Hstep
      by auto.
    injection Hstep as <- <-. left. split; [done|]. eexists. split; [done|].
    apply stamp_ids_seq.
  - rewrite step_generate_query in Hstep by done. injection Hstep as <- <-.
    left. split; [done|]. eexists. split; done.
  - destruct Hshape as (ms' & c & tc & tcs & i & Hms & _).
    destruct (tc_args tc !! "query") as [stmt|] eqn:Hq.
    + rewrite (step_check_query ms' c tc tcs i stmt) in Hstep by done.
      injection Hstep as <- <-. right. split; [done|].
      eexists _, _, _. split; [exact Hms|]. split; done.
    + by rewrite (check_query_key_error ms' c tc tcs i) in Hstep.
  - destruct Hshape as (ms' & c & tcs & i & Hms & _).
    rewrite (step_tool_node n_run_query sql_db_query ms' c tcs i) in Hstep
      by auto.
    injection Hstep as <- <-. left. split; [done|]. eexists. split; [done|].
    apply stamp_ids_seq.
Qed.

Lemma step_ids_distinct n (st : State DB) p' st' :
  inv uuid4 (At n) st → NoDup (msg_id <$> messages st) →
  stepE n st = Ok (p', st') → NoDup (msg_id <$> messages st').
Proof.
  intros Hinv Hnd Hstep.
  destruct (step_history n st p' st' Hinv Hstep)
    as [[_ (new & -> & Hnew)]|[_ (ms & m & m' & Hms & -> & Hid)]].
  - rewrite fmap_app. apply NoDup_app. split; [done|]. split.
    + intros i Hi Hi'. rewrite Hnew in Hi'.
      apply list_elem_of_fmap in Hi' as (k & -> & Hk).
      apply elem_of_seq in Hk.
      destruct Hinv as [Hwf _].
      by apply (ids_below_fresh uuid4 uuid4_inj _ k _ Hwf); [lia|].
    + rewrite Hnew. apply NoDup_fmap_2; [|apply NoDup_seq].
      intros x y [= H]. by apply uuid4_inj.
  - rewrite Hms in Hnd. rewrite fmap_app in *. simpl in *. by rewrite Hid.
Qed.

(** X5: in every state that a fresh conversation reaches, the messages of
    the history carry identifiers, and these are pairwise distinct: the
    reducer never finds two entries under one identifier. *)
Theorem message_ids_are_distinct k q (d : DB) p st :
  invokeE k q d = Ok (p, st) →
  Forall (λ m, is_Some (msg_id m)) (messages st)
  ∧ NoDup (msg_id <$> messages st).
Proof.
  intros Hk. split.
  - pose proof (invoke_inv _ _ _ _ _ Hk) as [Hwf _].
    by eapply ids_below_present.
  - revert k p st Hk. unfold invoke.
    apply (run_invariant (λ p st,
             inv uuid4 p st ∧ NoDup (msg_id <$> messages st))).
    + split; [apply initial_inv|]. simpl. apply NoDup_singleton.
    + intros n st p' st' [Hinv Hnd] Hstep. split.
      * pose proof (step_inv n st Hinv) as H. by rewrite Hstep in H.
      * by eapply step_ids_distinct.
Qed.

(** X6: the history only grows, and nothing but its last message is ever
    rewritten: along a run, the length of the history never decreases and
    every message that is not the last one stays where it is, as it is. *)
Theorem history_is_kept k j q (d : DB) p st p' st' :
  invokeE k q d = Ok (p, st) →
  invokeE (k + j) q d = Ok (p', st') →
  length (messages st) ≤ length (messages st')
  ∧ ∀ i, S i < length (messages st) →
         messages st' !! i = messages st !! i.
Proof.
  intros Hk Hkj. pose proof (invoke_inv _ _ _ _ _ Hk) as Hinv.
  unfold invoke in *. rewrite run_add, Hk in Hkj.
  change (runE j p st = Ok (p', st')) in Hkj. clear Hk.
  revert p st Hinv Hkj. induction j as [|j IH]; intros p st Hinv Hrun.
  - injection Hrun as <- <-. done.
  - destruct p as [n|]; [|by injection Hrun as <- <-].
    simpl in Hrun. unfold_bind.
    destruct (stepE n st) as [[p1 st1]|e] eqn:Hstep; [|done].
    pose proof (step_inv n st Hinv) as Hinv1. rewrite Hstep in Hinv1.
    destruct (IH p1 st1 Hinv1 Hrun) as [Hlen Hkeep].
    assert (length (messages st) ≤ length (messages st1)
            ∧ ∀ i, S i < length (messages st) →
                   messages st1 !! i = messages st !! i) as [Hlen1 Hkeep1].
    { destruct (step_history n st p1 st1 Hinv Hstep)
        as [[_ (new & -> & _)]|[_ (ms & m & m' & -> & -> & _)]].
      - rewrite length_app. split; [lia|]. intros i Hi.
        apply lookup_app_l. lia.
      - rewrite !length_app. simpl. split; [lia|]. intros i Hi.
        rewrite !lookup_app_l by lia. done. }
    split; [lia|]. intros i Hi. rewrite Hkeep by lia. by apply Hkeep1.
Qed.

(** *** Exceptions of a run *)

Lemma run_raise k p (st : State DB) e :
  inv uuid4 p st → runE k p st = Raise e →
  e = KeyError
  ∧ ∃ j st1 c tc rest i,
      j < k
      ∧ runE j p st = Ok (At n_check_query, st1)
      ∧ last (messages st1) = Some (AIMessage c (tc :: rest) i)
      ∧ tc_args tc !! "query" = None.
Proof.
  revert p st. induction k as [|k IH]; intros p st Hinv Hrun; [done|].
  destruct p as [n|]; [|done]. simpl in Hrun. unfold_bind.
  pose proof (step_inv n st Hinv) as Hstep.
  destruct (stepE n st) as [[p1 st1]|e1] eqn:Hs.
  - destruct (IH p1 st1 Hstep Hrun)
      as (-> & j & st2 & c & tc & rest & i & Hj & Hrun2 & Hlast & Hq).
    split; [done|]. exists (S j), st2, c, tc, rest, i.
    split; [lia|]. split; [|done]. by rewrite (run_step _ _ _ _ _ Hs).
  - injection Hrun as ->. destruct Hstep as [-> ->]. split; [done|].
    destruct Hinv as [Hwf (ms & c & tc & tcs & i & Hms & _)].
    exists 0, st, c, tc, tcs, i. split; [lia|]. split; [done|].
    split; [by rewrite Hms, last_snoc|].
    destruct (tc_args tc !! "query") as [stmt|] eqn:Hq; [|done].
    by rewrite (step_check_query ms c tc tcs i stmt) in Hs.
Qed.

(** X1: the graph's own code, run on a fresh conversation under a
    recursion limit, raises only two exceptions: the [KeyError] of
    [check_query], exactly on a candidate whose first tool call has no
    [query] argument, and the [GraphRecursionError] of the library, when
    the run is still at a node after as many super-steps as the limit.
    The [IndexError] of an empty history or an empty list of tool calls,
    the [AttributeError] of a last message without tool calls and the
    [ValueError] of a tool node on another kind of message are not
    reachable.  (What the model client or the data source driver may
    raise is not part of the model: both are taken to return.) *)
Theorem agent_invoke_raises_key_or_recursion_error
    recursion_limit q (d : DB) e :
  agent_invokeE recursion_limit q d = Raise e →
  (e = KeyError
   ∧ ∃ j st c tc rest i,
       j < recursion_limit
       ∧ invokeE j q d = Ok (At n_check_query, st)
       ∧ last (messages st) = Some (AIMessage c (tc :: rest) i)
       ∧ tc_args tc !! "query" = None)
  ∨ (e = GraphRecursionError
     ∧ ∃ n st, invokeE recursion_limit q d = Ok (At n, st)).
Proof.
  unfold agent_invoke.
  destruct (invokeE recursion_limit q d) as [[[n|] st]|e'] eqn:Hrun;
    [|done|].
  - intros [= <-]. right. eauto.
  - intros [= <-]. left. eapply run_raise; [apply initial_inv | exact Hrun].
Qed.

(** X2: when the first tool call of a candidate has no [query] argument,
    the step of [check_query] raises [KeyError], so does every longer
    run, and the endpoint answers with status 500 under every recursion
    limit. *)
Theorem candidate_without_query_gives_500 j q (d : DB) st c tc rest i :
  invokeE j q d = Ok (At n_check_query, st) →
  last (messages st) = Some (AIMessage c (tc :: rest) i) →
  tc_args tc !! "query" = None →
  stepE n_check_query st = Raise KeyError
  ∧ (∀ k, j < k →
       invokeE k q d = Raise KeyError
       ∧ agent_invokeE k q d = Raise KeyError)
  ∧ ∀ recursion_limit active request,
      active !! QueryRequest.session_id request = Some d →
      QueryRequest.query request = q →
      query_database uuid4 llm db_tables db_schema db_run arg_error
        recursion_limit active request = HTTPException 500.
Proof.
  intros Hj Hlast Hq.
  apply last_Some in Hlast as [ms Hms].
  pose proof (check_query_key_error ms c tc rest i st Hms Hq) as Hstep.
  assert (∀ k, j < k → invokeE k q d = Raise KeyError) as Hrun.
  { intros k Hk. replace k with (j + S (k - S j)) by lia. unfold invoke in *.
    rewrite run_add, Hj.
    change (runE (S (k - S j)) (At n_check_query) st = Raise KeyError).
    simpl. by rewrite Hstep. }
  split; [exact Hstep|]. split.
  { intros k Hk. split; [by apply Hrun|].
    unfold agent_invoke. by rewrite (Hrun k Hk). }
  intros recursion_limit active request Hd Hquery.
  unfold query_database, agent_invoke. rewrite Hd, Hquery.
  destruct (decide (j < recursion_limit)) as [Hlt|Hge].
  - by rewrite (Hrun _ Hlt).
  - replace j with (recursion_limit + (j - recursion_limit)) in Hj by lia.
    unfold invoke in *.
    destruct (run_prefix _ _ _ _ _ _ Hj) as (n1 & st1 & ->). done.
Qed.

(** *** Schema discovery, event by event *)

Lemma invocations_cycle (d : DB) tcs :
  Forall cycle_event (invocationsE sql_db_query d tcs).
Proof.
  revert d. induction tcs as [|tc tcs IH]; intros d; simpl; [constructor|].
  apply Forall_app. split; [|apply IH]. case_decide; by repeat constructor.
Qed.

(** A step of the cycle adds events of the cycle only. *)
Lemma step_cycle_events n (st : State DB) p' st' :
  in_cycle n → inv uuid4 (At n) st → stepE n st = Ok (p', st') →
  ∃ evs, log st' = log st ++ evs ∧ Forall cycle_event evs.
Proof.
  intros Hn [Hwf Hshape] Hstep.
  destruct Hn as [->|[->| ->]]; simpl in Hshape.
  - rewrite step_generate_query in Hstep by done. injection Hstep as <- <-.
    eexists. split; [done|].
    constructor; [unfold cycle_event, in_cycle; auto|].
    by repeat constructor.
  - destruct Hshape as (ms' & c & tc & tcs & i & Hms & _).
    destruct (tc_args tc !! "query") as [stmt|] eqn:Hq.
    + rewrite (step_check_query ms' c tc tcs i stmt) in Hstep by done.
      injection Hstep as <- <-.
      eexists. split; [done|].
      constructor; [unfold cycle_event, in_cycle; auto|].
      by repeat constructor.
    + by rewrite (check_query_key_error ms' c tc tcs i) in Hstep.
  - destruct Hshape as (ms' & c & tcs & i & Hms & _).
    rewrite (step_tool_node n_run_query sql_db_query ms' c tcs i) in Hstep
      by auto.
    rewrite run_all_spec in Hstep. injection Hstep as <- <-. simpl.
    exists (EvNode n_run_query :: invocationsE sql_db_query (db st) tcs).
    split; [by rewrite <- app_assoc|].
    constructor; [unfold cycle_event, in_cycle; auto|].
    apply invocations_cycle.
Qed.

Lemma run_cycle_events k n (st : State DB) p st' :
  in_cycle n → inv uuid4 (At n) st → runE k (At n) st = Ok (p, st') →
  ∃ rest, log st' = log st ++ rest ∧ Forall cycle_event rest.
Proof.
  revert n st. induction k as [|k IH]; intros n st Hn Hinv Hrun;
    simpl in Hrun.
  - injection Hrun as <- <-. exists []. by rewrite app_nil_r.
  - unfold_bind. destruct (stepE n st) as [[p1 st1]|e] eqn:Hstep; [|done].
    destruct (step_cycle_events _ _ _ _ Hn Hinv Hstep) as (evs & Hevs & Hall).
    pose proof (step_inv n st Hinv) as Hinv1. rewrite Hstep in Hinv1.
    destruct (step_cycle _ _ _ _ Hn Hstep) as [->|(n' & -> & Hn')].
    + exists evs. split; [|done].
      destruct k; by injection Hrun as <- <-.
    + destruct (IH n' st1 Hn' Hinv1 Hrun) as (rest & Hrest & Hall').
      exists (evs ++ rest). split; [|by apply Forall_app].
      by rewrite Hrest, Hevs, <- app_assoc.
Qed.


(** *** Where the data source can change *)

Lemma step_db_unchanged n (st : State DB) p' st' :
  inv uuid4 (At n) st → n ≠ n_run_query →
  stepE n st = Ok (p', st') → db st' = db st.
Proof.
  intros [Hwf Hshape] Hn Hstep. destruct n; simpl in Hshape; [| | | | |done].
  - rewrite step_list_tables in Hstep by done. by injection Hstep as <- <-.
  - rewrite step_call_get_schema in Hstep by done. by injection Hstep as <- <-.
  - destruct Hshape as (ms' & c & tcs & i & Hms & _).
    rewrite (step_tool_node n_get_schema sql_db_schema ms' c tcs i) in Hstep
      by auto.
    rewrite run_all_spec in Hstep. injection Hstep as <- <-. simpl.
    apply db_after_schema.
  - rewrite step_generate_query in Hstep by done. by injection Hstep as <- <-.
  - destruct Hshape as (ms' & c & tc & tcs & i & Hms & _).
    destruct (tc_args tc !! "query") as [stmt|] eqn:Hq.
    + rewrite (step_check_query ms' c tc tcs i stmt) in Hstep by done.
      by injection Hstep as <- <-.
    + by rewrite (check_query_key_error ms' c tc tcs i) in Hstep.
Qed.

(** X3: only [run_query] touches the data source: as long as that node
    has not run, the data source is the one the conversation started
    with, whatever the model answered; listing the tables, fetching
    schemas, generating and checking never change it. *)
Theorem data_source_changes_only_in_run_query k q (d : DB) p st :
  invokeE k q d = Ok (p, st) →
  n_run_query ∉ nodes_of (log st) → db st = d.
Proof.
  revert k p st. unfold invoke.
  apply (run_invariant (λ p st,
           inv uuid4 p st
           ∧ (n_run_query ∉ nodes_of (log st) → db st = d))).
  - split; [apply initial_inv | done].
  - intros n st p' st' [Hinv Hdb] Hstep. split.
    { pose proof (step_inv n st Hinv) as H. by rewrite Hstep in H. }
    rewrite (step_nodes _ _ _ _ Hstep). intros Hnot.
    apply not_elem_of_app in Hnot as [Hold Hn].
    rewrite (step_db_unchanged n st p' st' Hinv); [by apply Hdb | | done].
    intros ->. apply Hn. apply list_elem_of_here.
Qed.

(** *** What of a candidate is used *)

Lemma invocations_model_calls t (d : DB) tcs :
  omap event_model (invocationsE t d tcs) = [].
Proof.
  revert d. induction tcs as [|tc tcs IH]; intros d; [done|].
  simpl. rewrite omap_app, IH. by case_decide.
Qed.

(** X4: of a candidate, only the [query] text of the first tool call is
    used: it alone is sent to the model for checking, and what
    [run_query] then executes are the calls of the model's answer to the
    check.  The name of the first call and the other calls of the
    candidate play no part, and those other calls are never run. *)
Theorem only_first_query_of_candidate_is_used
    k q (d : DB) st c tc rest i stmt :
  invokeE k q d = Ok (At n_check_query, st) →
  last (messages st) = Some (AIMessage c (tc :: rest) i) →
  tc_args tc !! "query" = Some stmt →
  let checked := reply_tool_calls (llm (check_request stmt)) in
  ∃ st',
    invokeE (k + 2) q d = Ok (At n_generate_query, st')
    ∧ model_calls_of (log st')
      = model_calls_of (log st) ++ [check_request stmt]
    ∧ tool_invocations_of (log st')
      = tool_invocations_of (log st)
          ++ tool_invocations_of (invocationsE sql_db_query (db st) checked)
    ∧ db st' = db_afterE sql_db_query (db st) checked.
Proof.
  intros Hk Hlast Hq checked.
  pose proof (invoke_inv _ _ _ _ _ Hk) as Hinv.
  apply last_Some in Hlast as [ms Hms].
  pose proof (step_check_query ms c tc rest i stmt st (proj1 Hinv) Hms Hq)
    as Hstep1. simpl in Hstep1.
  pose proof (step_inv n_check_query st Hinv) as Hinv1.
  rewrite Hstep1 in Hinv1.
  pose proof (step_tool_node n_run_query sql_db_query ms
                (reply_content (llm (check_request stmt))) checked i _
                (or_intror (conj eq_refl eq_refl)) (proj1 Hinv1) eq_refl)
    as Hstep2.
  simpl in Hstep2. rewrite run_all_spec in Hstep2. simpl in Hstep2.
  eexists. split; [|split; [|split]].
  - unfold invoke in *. rewrite run_add, Hk.
    exact (eq_trans (run_step 1 _ _ _ _ Hstep1)
             (eq_trans (run_step 0 _ _ _ _ Hstep2) eq_refl)).
  - simpl. unfold model_calls_of. rewrite !omap_app. simpl.
    rewrite (invocations_model_calls sql_db_query (db st) checked).
    by rewrite !app_nil_r.
  - simpl. unfold tool_invocations_of. rewrite !omap_app. simpl.
    by rewrite !app_nil_r.
  - done.
Qed.

(** *** The tool node under a scheduler *)

Abbreviation run_in_orderE :=
  (run_in_order db_tables db_schema db_run arg_error).
Abbreviation run_all_scheduledE :=
  (run_all_scheduled db_tables db_schema db_run arg_error).
Abbreviation tool_node_scheduledE :=
  (tool_node_scheduled db_tables db_schema db_run arg_error).
Abbreviation step_scheduledE :=
  (step_scheduled uuid4 llm db_tables db_schema db_run arg_error).
Abbreviation run_scheduledE :=
  (run_scheduled uuid4 llm db_tables db_schema db_run arg_error).
Abbreviation invoke_scheduledE :=
  (invoke_scheduled uuid4 llm db_tables db_schema db_run arg_error).

Lemma run_in_order_seq t pre tcs (st : State DB) :
  run_in_orderE t (pre ++ tcs) (seq (length pre) (length tcs)) st
  = (list_to_map (zip (seq (length pre) (length tcs)) (run_allE t tcs st).1),
     (run_allE t tcs st).2).
Proof.
  revert pre st. induction tcs as [|tc tcs IH]; intros pre st; simpl; [done|].
  rewrite lookup_app_r by lia. rewrite Nat.sub_diag. simpl.
  destruct (run_oneE t tc st) as [m st1].
  specialize (IH (pre ++ [tc]) st1).
  rewrite <- app_assoc, length_app in IH. simpl in IH.
  rewrite Nat.add_1_r in IH. rewrite IH.
  by destruct (run_allE t tcs st1) as [ms st2].
Qed.

Lemma collect_seq a (ms : list message) :
  omap (λ i, (list_to_map (zip (seq a (length ms)) ms) : gmap nat message)
               !! i)
    (seq a (length ms))
  = ms.
Proof.
  revert a. induction ms as [|m ms IH]; intros a; simpl; [done|].
  rewrite lookup_insert_eq. f_equal.
  etrans; [|apply (IH (S a))].
  apply list_omap_ext, Forall_Forall2_diag, Forall_forall.
  intros i Hi. apply elem_of_seq in Hi.
  apply lookup_insert_ne. lia.
Qed.

(** The tools run in the order of the calls: the tool node as [run_all]
    has it. *)
Lemma run_all_scheduled_seq t tcs (st : State DB) :
  run_all_scheduledE (seq 0 (length tcs)) t tcs st = run_allE t tcs st.
Proof.
  unfold run_all_scheduled.
  pose proof (run_in_order_seq t [] tcs st) as Hrun. simpl in Hrun.
  rewrite Hrun.
  destruct (run_all_frame t tcs st) as (_ & _ & Hall).
  apply Forall2_length in Hall.
  destruct (run_allE t tcs st) as [ms st']. simpl in *.
  by rewrite Hall, collect_seq.
Qed.

Lemma order_of_single schedule tcs (st : State DB) :
  length tcs ≤ 1 → order_of schedule tcs st = seq 0 (length tcs).
Proof.
  intros Hlen. unfold order_of. case_decide as Hp; [|done].
  destruct tcs as [|tc [|tc' tcs]]; simpl in *; [| |lia].
  - by apply Permutation_nil_r in Hp.
  - by apply Permutation_singleton_r in Hp.
Qed.

Lemma order_of_call_order tcs (st : State DB) :
  order_of (λ _, []) tcs st = seq 0 (length tcs).
Proof.
  unfold order_of. case_decide as Hp; [|done].
  symmetry in Hp. by apply Permutation_nil_r in Hp.
Qed.

Lemma step_scheduled_eq schedule n (st : State DB) :
  (∀ c tcs i,
     last (messages st) = Some (AIMessage c tcs i) →
     order_of schedule tcs (emit (EvNode n) st) = seq 0 (length tcs)) →
  step_scheduledE schedule n st = stepE n st.
Proof.
  intros Horder. unfold step_scheduled, step.
  assert (node_fn_scheduled uuid4 llm db_tables db_schema db_run arg_error
            schedule n (emit (EvNode n) st)
          = node_fn uuid4 llm db_tables db_schema db_run arg_error n
              (emit (EvNode n) st)) as ->; [|done].
  assert (∀ t, tool_node_scheduledE schedule t (emit (EvNode n) st)
               = tool_node db_tables db_schema db_run arg_error t
                   (emit (EvNode n) st)) as Htool.
  { intros t. unfold tool_node_scheduled, tool_node. simpl.
    destruct (last (messages st)) as [[| |c tcs i|]|] eqn:Hlast; try done.
    by rewrite (Horder c tcs i eq_refl), run_all_scheduled_seq. }
  destruct n; simpl; try done; apply Htool.
Qed.

(** Under the scheduler that keeps the order of the calls, the run is the
    one of [run]. *)
Lemma run_scheduled_call_order k p (st : State DB) :
  run_scheduledE (λ _, []) k p st = runE k p st.
Proof.
  revert p st. induction k as [|k IH]; intros p st; [done|].
  destruct p as [n|]; [|done]. simpl.
  rewrite step_scheduled_eq by (intros; apply order_of_call_order).
  destruct (stepE n st) as [[p1 st1]|e]; [apply IH | done].
Qed.

Lemma step_scheduled_single schedule n (st : State DB) :
  single_call (At n) (messages st) →
  step_scheduledE schedule n st = stepE n st.
Proof.
  intros Hsingle.
  assert (n = n_get_schema ∨ n = n_run_query
          ∨ node_fn_scheduled uuid4 llm db_tables db_schema db_run arg_error
              schedule n
            = node_fn uuid4 llm db_tables db_schema db_run arg_error n)
    as [->|[->|Hfn]]; [destruct n; auto | | |].
  - destruct Hsingle as (ms' & c & tcs & i & Hms & Hlen).
    apply step_scheduled_eq. intros c' tcs' i' Hlast.
    rewrite Hms, last_snoc in Hlast. injection Hlast as <- <- <-.
    by apply order_of_single.
  - destruct Hsingle as (ms' & c & tcs & i & Hms & Hlen).
    apply step_scheduled_eq. intros c' tcs' i' Hlast.
    rewrite Hms, last_snoc in Hlast. injection Hlast as <- <- <-.
    by apply order_of_single.
  - unfold step_scheduled, step. by rewrite Hfn.
Qed.

(** When the model never puts two calls in one message, no tool node has
    two calls to treat. *)
Lemma step_single_call n (st : State DB) p' st' :
  (∀ req, length (reply_tool_calls (llm req)) ≤ 1) →
  inv uuid4 (At n) st → stepE n st = Ok (p', st') →
  single_call p' (messages st').
Proof.
  intros Hllm [Hwf Hshape] Hstep. destruct n; simpl in Hshape.
  - rewrite step_list_tables in Hstep by done. by injection Hstep as <- <-.
  - rewrite step_call_get_schema in Hstep by done.
    injection Hstep as <- <-. simpl. eexists _, _, _, _. split; [done|].
    apply Hllm.
  - destruct Hshape as (ms' & c & tcs & i & Hms & _).
    rewrite (step_tool_node n_get_schema sql_db_schema ms' c tcs i) in Hstep
      by auto.
    by injection Hstep as <- <-.
  - rewrite step_generate_query in Hstep by done. injection Hstep as <- <-.
    by destruct (reply_tool_calls _).
  - destruct Hshape as (ms' & c & tc & tcs & i & Hms & _).
    destruct (tc_args tc !! "query") as [stmt|] eqn:Hq.
    + rewrite (step_check_query ms' c tc tcs i stmt) in Hstep by done.
      injection Hstep as <- <-. simpl. eexists _, _, _, _. split; [done|].
      apply Hllm.
    + by rewrite (check_query_key_error ms' c tc tcs i) in Hstep.
  - destruct Hshape as (ms' & c & tcs & i & Hms & _).
    rewrite (step_tool_node n_run_query sql_db_query ms' c tcs i) in Hstep
      by auto.
    by injection Hstep as <- <-.
Qed.

Lemma run_scheduled_single schedule k p (st : State DB) :
  (∀ req, length (reply_tool_calls (llm req)) ≤ 1) →
  inv uuid4 p st → single_call p (messages st) →
  run_scheduledE schedule k p st = runE k p st.
Proof.
  intros Hllm. revert p st.
  induction k as [|k IH]; intros p st Hinv Hsingle; [done|].
  destruct p as [n|]; [|done]. simpl.
  rewrite step_scheduled_single by done.
  pose proof (step_inv n st Hinv) as Hinv1.
  destruct (stepE n st) as [[p1 st1]|e] eqn:Hstep; [|done].
  apply IH; [done|]. by eapply step_single_call.
Qed.

(** Such a model leaves the scheduler no choice. *)
Lemma invoke_scheduled_single schedule k q (d : DB) :
  (∀ req, length (reply_tool_calls (llm req)) ≤ 1) →
  invoke_scheduledE schedule k q d = invokeE k q d.
Proof.
  intros Hllm. unfold invoke_scheduled, invoke.
  apply run_scheduled_single; [done | apply initial_inv | done].
Qed.
End StepFacts.

(** ** The cycle has no bound *)

Section Cycle.
Context {DB : Type}.
Variable uuid4 : nat → string.
Variable db_tables : DB → list string.
Variable db_schema : DB → string → string.
Variable db_run : DB → string → DB * sql_result.
Variable arg_error : tool → gmap string string → string.
Hypothesis uuid4_inj : Inj (=) (=) uuid4.

(** C4, as the code has it: there is a model, all of whose answers
    carry a tool call, under which no run of a fresh conversation reaches
    [END] or fails in a node: after the three steps of schema discovery,
    the place after [k] more super-steps is the [k]-th node of the cycle
    [generate_query], [check_query], [run_query], for every [k].  The
    graph itself sets no bound; the call of the agent is cut by the
    recursion limit of the library: whatever the limit, it raises
    [GraphRecursionError], and the endpoint answers with status 500. *)
Theorem cycle_is_cut_by_recursion_limit_only :
  ∃ llm : llm_request → llm_reply,
    (∀ req, reply_tool_calls (llm req) ≠ [])
    ∧ ∀ q (d : DB),
        (∀ k, ∃ st,
           invoke uuid4 llm db_tables db_schema db_run arg_error (3 + k) q d
           = Ok (At (Nat.iter k next_in_cycle n_generate_query), st))
        ∧ (∀ recursion_limit,
             agent_invoke uuid4 llm db_tables db_schema db_run arg_error
               recursion_limit q d
             = Raise GraphRecursionError)
        ∧ ∀ recursion_limit active request,
            active !! QueryRequest.session_id request = Some d →
            QueryRequest.query request = q →
            query_database uuid4 llm db_tables db_schema db_run arg_error
              recursion_limit active request
            = HTTPException 500.
Proof.
  exists Demo.always_query. split; [done|]. intros q d.
  assert (∀ k, ∃ st,
            invoke uuid4 Demo.always_query db_tables db_schema db_run
              arg_error (3 + k) q d
            = Ok (At (Nat.iter k next_in_cycle n_generate_query), st))
    as Hcycle.
  { intros k.
    destruct (invoke_three uuid4 Demo.always_query db_tables db_schema
                db_run arg_error uuid4_inj q d) as (st3 & Hrun & _).
    pose proof (invoke_inv uuid4 _ _ _ _ _ uuid4_inj _ _ _ _ _ Hrun) as Hinv.
    unfold invoke in *. rewrite run_add, Hrun.
    apply (run_always_query uuid4 Demo.always_query db_tables db_schema
             db_run arg_error uuid4_inj k n_generate_query st3);
      [done | unfold in_cycle; auto | done | done]. }
  assert (∀ recursion_limit,
            agent_invoke uuid4 Demo.always_query db_tables db_schema db_run
              arg_error recursion_limit q d
            = Raise GraphRecursionError) as Hcut.
  { intros recursion_limit. unfold agent_invoke.
    destruct (decide (recursion_limit < 3)) as [Hlt|Hge].
    - destruct (Hcycle 0) as (st & Hrun). unfold invoke in *.
      replace (3 + 0) with (recursion_limit + (3 - recursion_limit))
        in Hrun by lia.
      by destruct (run_prefix _ _ _ _ _ _ _ _ _ _ _ _ Hrun)
        as (n1 & st1 & ->).
    - destruct (Hcycle (recursion_limit - 3)) as (st & Hrun).
      replace (3 + (recursion_limit - 3)) with recursion_limit in Hrun
        by lia.
      by rewrite Hrun. }
  split; [exact Hcycle|]. split; [exact Hcut|].
  intros recursion_limit active request Hd Hq.
  unfold query_database. by rewrite Hd, Hq, Hcut.
Qed.
End Cycle.

(** ** The executed query reported by the endpoint *)

Lemma scan_tool_calls_spec acc tcs :
  scan_tool_calls acc tcs
  = match head (filter (λ tc, tc_name tc = "sql_db_query"%string) tcs) with
    | Some tc => tc_args tc !! "query"
    | None => acc
    end.
Proof.
  induction tcs as [|tc tcs IH]; simpl; [done|].
  rewrite filter_cons. by case_decide.
Qed.

Lemma calls_sql_db_query_head m :
  calls_sql_db_query m = true ↔ is_Some (first_query_call m).
Proof.
  unfold calls_sql_db_query, first_query_call.
  induction (default [] (msg_tool_calls m)) as [|tc tcs IH]; simpl.
  - split; [done | by intros [? ?]].
  - rewrite filter_cons. case_bool_decide as Hn.
    + rewrite decide_True by done. simpl. split; eauto.
    + rewrite decide_False by done. simpl. exact IH.
Qed.

Lemma scan_message_spec acc m :
  scan_message acc m
  = if calls_sql_db_query m
    then first_query_call m ≫= λ tc, tc_args tc !! "query"
    else acc.
Proof.
  assert (scan_message acc m
          = scan_tool_calls acc (default [] (msg_tool_calls m))) as ->.
  { unfold scan_message. by destruct (msg_tool_calls m) as [[|tc tcs]|]. }
  rewrite scan_tool_calls_spec. fold (first_query_call m).
  pose proof (calls_sql_db_query_head m) as Hhead.
  destruct (first_query_call m) as [tc|].
  - destruct Hhead as [_ ->]; [done | by eexists].
  - destruct (calls_sql_db_query m); [|done].
    destruct Hhead as [[? H] _]; [done | discriminate H].
Qed.


(** ** Reproducible runs *)

Section Determinism.
Context {DB : Type}.
Variables uuid4 uuid4' : nat → string.
Variable llm : llm_request → llm_reply.
Variable db_tables : DB → list string.
Variable db_schema : DB → string → string.
Variable db_run : DB → string → DB * sql_result.
Variable arg_error : tool → gmap string string → string.
Hypothesis uuid4_inj : Inj (=) (=) uuid4.
Hypothesis uuid4'_inj : Inj (=) (=) uuid4'.
Hypothesis llm_fixed : fixed_model llm.

Abbreviation stepA := (step uuid4 llm db_tables db_schema db_run arg_error).
Abbreviation stepB := (step uuid4' llm db_tables db_schema db_run arg_error).
Abbreviation runA := (run uuid4 llm db_tables db_schema db_run arg_error).
Abbreviation runB := (run uuid4' llm db_tables db_schema db_run arg_error).

Lemma set_id_set_id i j m : set_id i (set_id j m) = set_id i m.
Proof. by destruct m. Qed.

Lemma erase_ids_app ms1 ms2 :
  erase_ids (ms1 ++ ms2) = erase_ids ms1 ++ erase_ids ms2.
Proof. apply fmap_app. Qed.

Lemma erase_ids_stamp u n ms : erase_ids (stamp u n ms) = erase_ids ms.
Proof.
  revert n. induction ms as [|m ms IH]; intros n; [done|].
  unfold erase_ids in *. simpl. by rewrite set_id_set_id, IH.
Qed.

Lemma erase_ids_last ms c tcs i ms' m' :
  erase_ids (ms ++ [AIMessage c tcs i]) = erase_ids (ms' ++ [m']) →
  erase_ids ms = erase_ids ms' ∧ ∃ i', m' = AIMessage c tcs i'.
Proof.
  rewrite !erase_ids_app. simpl. intros H.
  apply app_inj_tail in H as [Hms Hm]. split; [done|].
  destruct m'; try done. injection Hm as <- <-. eauto.
Qed.

Lemma related_request (a b : State DB) mk :
  (∀ ms ms', erase_ids ms = erase_ids ms' →
             erase_request (mk ms) = erase_request (mk ms')) →
  related a b → llm (mk (messages a)) = llm (mk (messages b)).
Proof. intros Hmk (Hms & _). by apply llm_fixed, Hmk. Qed.

Lemma related_extend (a b : State DB) ma mb d na nb ea eb :
  related a b → erase_ids ma = erase_ids mb →
  erase_event <$> ea = erase_event <$> eb →
  related (MkState (messages a ++ ma) d na (log a ++ ea))
    (MkState (messages b ++ mb) d nb (log b ++ eb)).
Proof.
  intros (Hms & Hdb & Hlog) Hm He. unfold related. simpl.
  rewrite !erase_ids_app, !fmap_app. by rewrite Hms, Hm, Hlog, He.
Qed.

(** One super-step from related states gives related states, or the
    same exception. *)
Lemma step_sim n (a b : State DB) :
  inv uuid4 (At n) a → inv uuid4' (At n) b → related a b →
  same_outcome (stepA n a) (stepB n b).
Proof.
  intros [Hwfa Hsa] [Hwfb Hsb] Hrel.
  pose proof Hrel as (Hms & Hdb & Hlog).
  destruct n; simpl in Hsa, Hsb.
  - rewrite !step_list_tables by done. simpl. split; [done|].
    rewrite Hdb. by apply related_extend.
  - rewrite !step_call_get_schema by done. simpl. split; [done|].
    rewrite (related_request a b schema_request), Hdb; [| |done].
    2:{ intros m1 m2 Hm. unfold erase_request, schema_request. simpl.
        by rewrite Hm. }
    apply related_extend; [done | done |].
    simpl. unfold erase_request, schema_request. simpl. by rewrite Hms.
  - destruct Hsa as (ms & c & tcs & i & Hma & _).
    destruct Hsb as (ms' & c' & tcs' & i' & Hmb & _).
    rewrite Hma, Hmb in Hms.
    apply erase_ids_last in Hms as [_ (i0 & [= -> -> _])].
    rewrite (step_tool_node _ _ _ _ _ _ uuid4_inj n_get_schema sql_db_schema
               ms c tcs i) by auto.
    rewrite (step_tool_node _ _ _ _ _ _ uuid4'_inj n_get_schema sql_db_schema
               ms' c tcs i') by auto.
    rewrite !run_all_spec. simpl. split; [done|].
    rewrite Hdb, <- !app_assoc. apply related_extend; [done | | done].
    by rewrite !erase_ids_stamp.
  - rewrite !step_generate_query by done. simpl.
    rewrite (related_request a b generate_request), Hdb; [| |done].
    2:{ intros m1 m2 Hm. unfold erase_request, generate_request. simpl.
        unfold erase_ids in *. simpl. by rewrite Hm. }
    split; [done|].
    apply related_extend; [done | done |].
    simpl. unfold erase_request, generate_request. simpl.
    unfold erase_ids in *. simpl. by rewrite Hms.
  - destruct Hsa as (ms & c & tc & tcs & i & Hma & _).
    destruct Hsb as (ms' & c' & tc' & tcs' & i' & Hmb & _).
    rewrite Hma, Hmb in Hms.
    apply erase_ids_last in Hms as [Hms (i0 & [= -> -> -> _])].
    destruct (tc_args tc !! "query") as [stmt|] eqn:Hq.
    + rewrite (step_check_query uuid4 _ _ _ _ _ ms c tc tcs i stmt)
        by done.
      rewrite (step_check_query uuid4' _ _ _ _ _ ms' c tc tcs i' stmt)
        by done.
      simpl. split; [done|]. unfold related. simpl.
      rewrite !erase_ids_app, !fmap_app, Hms, Hlog. done.
    + rewrite (check_query_key_error _ _ _ _ _ _ ms c tc tcs i) by done.
      by rewrite (check_query_key_error _ _ _ _ _ _ ms' c tc tcs i') by done.
  - destruct Hsa as (ms & c & tcs & i & Hma & _).
    destruct Hsb as (ms' & c' & tcs' & i' & Hmb & _).
    rewrite Hma, Hmb in Hms.
    apply erase_ids_last in Hms as [_ (i0 & [= -> -> _])].
    rewrite (step_tool_node _ _ _ _ _ _ uuid4_inj n_run_query sql_db_query
               ms c tcs i) by auto.
    rewrite (step_tool_node _ _ _ _ _ _ uuid4'_inj n_run_query sql_db_query
               ms' c tcs i') by auto.
    rewrite !run_all_spec. simpl. split; [done|].
    rewrite Hdb, <- !app_assoc. apply related_extend; [done | | done].
    by rewrite !erase_ids_stamp.
Qed.

Lemma run_sim k p (a b : State DB) :
  inv uuid4 p a → inv uuid4' p b → related a b →
  same_outcome (runA k p a) (runB k p b).
Proof.
  revert p a b. induction k as [|k IH]; intros p a b Ha Hb Hrel; [done|].
  destruct p as [n|]; [|done]. simpl.
  pose proof (step_sim n a b Ha Hb Hrel) as Hsim.
  pose proof (step_inv uuid4 llm db_tables db_schema db_run arg_error
                uuid4_inj n a Ha) as Ha1.
  pose proof (step_inv uuid4' llm db_tables db_schema db_run arg_error
                uuid4'_inj n b Hb) as Hb1.
  destruct (stepA n a) as [[pa a1]|ea], (stepB n b) as [[pb b1]|eb];
    simpl in *; try done.
  destruct Hsim as [<- Hrel1]. by apply IH.
Qed.

Lemma nodes_of_erase (l : list (event DB)) :
  nodes_of (erase_event <$> l) = nodes_of l.
Proof.
  induction l as [|e l IH]; [done|].
  unfold nodes_of in *. rewrite fmap_cons.
  destruct e; simpl; [f_equal| |]; exact IH.
Qed.

Lemma tool_invocations_of_erase (l : list (event DB)) :
  tool_invocations_of (erase_event <$> l) = tool_invocations_of l.
Proof.
  induction l as [|e l IH]; [done|].
  unfold tool_invocations_of in *. rewrite fmap_cons.
  destruct e; simpl; [| |f_equal]; exact IH.
Qed.

(** Two runs that differ in the identifiers they draw, with the tools of
    one message run in the order of the calls. *)
Lemma invoke_sim q (d : DB) k :
  match invoke uuid4 llm db_tables db_schema db_run arg_error k q d,
        invoke uuid4' llm db_tables db_schema db_run arg_error k q d with
  | Ok (p, a), Ok (p', b) =>
      p = p'
      ∧ nodes_of (log a) = nodes_of (log b)
      ∧ tool_invocations_of (log a) = tool_invocations_of (log b)
      ∧ db a = db b
      ∧ erase_ids (messages a) = erase_ids (messages b)
  | Raise e, Raise e' => e = e'
  | _, _ => False
  end.
Proof.
  pose proof (run_sim k (At n_list_tables) (initial uuid4 q d)
                (initial uuid4' q d) (initial_inv uuid4 q d)
                (initial_inv uuid4' q d)) as Hsim.
  unfold invoke.
  destruct (runA k _ _) as [[p a]|e], (runB k _ _) as [[p' b]|e'];
    simpl in *; try (by apply Hsim).
  destruct Hsim as (Hp & Hms & Hdb & Hlog); [done|].
  repeat split; try done.
  - by rewrite <- (nodes_of_erase (log a)), Hlog, nodes_of_erase.
  - by rewrite <- (tool_invocations_of_erase (log a)), Hlog,
      tool_invocations_of_erase.
Qed.

End Determinism.

(** ** The properties on the small data source *)

(** On a fresh conversation over the tables [orders] and [customers], the
    first node appends the request, the result [orders, customers] and the
    summary that names both tables once each. *)
Lemma list_tables_appends_three_demo :
  wf Demo.uuid4 (initial Demo.uuid4 "list the tables" Demo.d0)
  ∧ ∃ st',
      step Demo.uuid4 Demo.llm Demo.db_tables Demo.db_schema Demo.db_run
        Demo.arg_error n_list_tables
        (initial Demo.uuid4 "list the tables" Demo.d0)
      = Ok (At n_call_get_schema, st')
      ∧ messages st'
        = [HumanMessage "list the tables" (Some "0"%string);
           AIMessage "" [ToolCall "sql_db_list_tables" ∅ "abc123"]
             (Some "1"%string);
           ToolMessage "orders, customers" "sql_db_list_tables" "abc123"
             (Some "2"%string);
           AIMessage "Available tables: orders, customers" []
             (Some "3"%string)].
Proof.
  assert (wf Demo.uuid4 (initial Demo.uuid4 "list the tables" Demo.d0)) as Hwf.
  { repeat constructor. exists 0. split; [simpl; lia | reflexivity]. }
  split; [exact Hwf|].
  destruct (list_tables_appends_three Demo.uuid4 Demo.llm Demo.db_tables
              Demo.db_schema Demo.db_run Demo.arg_error pretty_nat_inj
              _ Hwf) as (st' & Hstep & Hms & _).
  exists st'. split; [exact Hstep | exact Hms].
Defined.


(** The run of the scripted model, step by step: schema discovery, a
    malformed statement, a [DELETE], the answer. *)
Lemma demo_nodes :
  Demo.invoke 10 = Ok (END, Demo.state_at 10)
  ∧ nodes_of (log (Demo.state_at 10))
    = [n_list_tables; n_call_get_schema; n_get_schema;
       n_generate_query; n_check_query; n_run_query;
       n_generate_query; n_check_query; n_run_query;
       n_generate_query].
Proof. split_all; vm_compute; reflexivity. Qed.

(** C1 fails: the scripted model submits [DELETE FROM orders]; the
    executor runs it on the data source, the tool result is the (empty)
    output of the statement and not an error, and the table [orders] goes
    from three rows to none. *)
Lemma dml_statement_is_executed :
  Demo.invoke 9 = Ok (At n_generate_query, Demo.state_at 9)
  ∧ tool_invocations_of (log (Demo.state_at 9))
    = [(sql_db_list_tables, ToolCall "sql_db_list_tables" ∅ "abc123",
        Demo.d0);
       (sql_db_schema,
        ToolCall "sql_db_schema"
          {["table_names"%string := "orders"%string]} "call_schema",
        Demo.d0);
       (sql_db_query,
        Demo.query_call "SELEC * FROM orders" "call_check", Demo.d0);
       (sql_db_query,
        Demo.query_call "DELETE FROM orders" "call_check", Demo.d0)]
  ∧ last (messages (Demo.state_at 9))
    = Some (ToolMessage "" "sql_db_query" "call_check" (Some "11"%string))
  ∧ Demo.row_counts Demo.d0 !! "orders"%string = Some 3
  ∧ Demo.row_counts (db (Demo.state_at 9)) !! "orders"%string = Some 0
  ∧ Demo.row_counts (db (Demo.state_at 9)) ≠ Demo.row_counts Demo.d0.
Proof.
  split_all; try (vm_compute; reflexivity).
  intros H. apply (f_equal (λ m : gmap string nat, m !! "orders"%string)) in H.
  vm_compute in H. discriminate H.
Qed.

(** C2 fails for the identifier that pairs a request with its result: the
    candidate's call is [call_gen], the checked query that takes its place
    carries the call [call_check]; what the two messages share is the
    message identifier. *)
Lemma checked_query_has_its_own_call_id :
  Demo.invoke 4 = Ok (At n_check_query, Demo.state_at 4)
  ∧ Demo.invoke 5 = Ok (At n_run_query, Demo.state_at 5)
  ∧ last (messages (Demo.state_at 4))
    = Some (AIMessage ""
              [Demo.query_call "SELEC * FROM orders" "call_gen"]
              (Some "6"%string))
  ∧ last (messages (Demo.state_at 5))
    = Some (AIMessage ""
              [Demo.query_call "SELEC * FROM orders" "call_check"]
              (Some "6"%string))
  ∧ (tc_id <$> default [] (last (messages (Demo.state_at 5)) ≫= msg_tool_calls))
    ≠ (tc_id <$> default [] (last (messages (Demo.state_at 4)) ≫= msg_tool_calls)).
Proof.
  split_all; try (vm_compute; reflexivity).
  vm_compute. discriminate.
Qed.

(** C5 fails at the model call of [check_query]: the candidate request is
    in the history, no tool result follows it, and the node calls the
    model. *)
Lemma candidate_is_unanswered_at_check :
  Demo.invoke 4 = Ok (At n_check_query, Demo.state_at 4)
  ∧ last (messages (Demo.state_at 4))
    = Some (AIMessage ""
              [Demo.query_call "SELEC * FROM orders" "call_gen"]
              (Some "6"%string))
  ∧ answered (messages (Demo.state_at 4)) = false
  ∧ Demo.invoke 5 = Ok (At n_run_query, Demo.state_at 5)
  ∧ model_calls_of (log (Demo.state_at 5))
    = model_calls_of (log (Demo.state_at 4))
        ++ [check_request "SELEC * FROM orders"].
Proof. split_all; vm_compute; reflexivity. Qed.

(** C4 fails for a call of the agent: under the model that always asks
    for a query, the call made by the endpoint does not go on for ever.
    With a recursion limit of 25 super-steps it raises
    [GraphRecursionError] after seven rounds of the cycle, and the
    endpoint answers with status 500. *)
Lemma cycle_stops_at_recursion_limit :
  (∀ req, reply_tool_calls (Demo.always_query req) ≠ [])
  ∧ (∃ st,
       invoke Demo.uuid4 Demo.always_query Demo.db_tables Demo.db_schema
         Demo.db_run Demo.arg_error 25 Demo.question Demo.d0
       = Ok (At n_check_query, st)
       ∧ length (filter (λ n, n = n_run_query) (nodes_of (log st))) = 7)
  ∧ agent_invoke Demo.uuid4 Demo.always_query Demo.db_tables Demo.db_schema
      Demo.db_run Demo.arg_error 25 Demo.question
      Demo.d0
    = Raise GraphRecursionError
  ∧ query_database Demo.uuid4 Demo.always_query Demo.db_tables
      Demo.db_schema Demo.db_run Demo.arg_error 25
      {["s1"%string := Demo.d0]} (QueryRequest.Make Demo.question "s1")
    = HTTPException 500.
Proof.
  split_all; [done | | vm_compute; reflexivity..].
  eexists. split; vm_compute; reflexivity.
Qed.


(** A model that answers by the tools it is offered is a fixed model. *)
Lemma parallel_llm_fixed : fixed_model Parallel.llm.
Proof.
  intros r r' H. apply (f_equal req_tools) in H. simpl in H.
  unfold Parallel.llm. by rewrite H.
Qed.


(** *** The theorems at concrete inputs *)


(** The scripted model answers without tool call at its third generation,
    and the run ends with that answer. *)
Lemma answer_without_tool_call_demo :
  Demo.invoke 9 = Ok (At n_generate_query, Demo.state_at 9)
  ∧ reply_tool_calls
      (Demo.llm (generate_request (messages (Demo.state_at 9)))) = []
  ∧ ∃ st',
      Demo.invoke (9 + 1) = Ok (END, st')
      ∧ last (messages st')
        = Some (AIMessage
                  (reply_content
                     (Demo.llm
                        (generate_request (messages (Demo.state_at 9)))))
                  [] (Some (Demo.uuid4 (next_uuid (Demo.state_at 9))))).
Proof.
  assert (Demo.invoke 9 = Ok (At n_generate_query, Demo.state_at 9)) as H1
    by (vm_compute; reflexivity).
  assert (reply_tool_calls
            (Demo.llm (generate_request (messages (Demo.state_at 9)))) = [])
    as H2 by (vm_compute; reflexivity).
  split; [exact H1|]. split; [exact H2|].
  destruct (answer_without_tool_call_ends_run Demo.uuid4 Demo.llm
              Demo.db_tables Demo.db_schema Demo.db_run Demo.arg_error
              pretty_nat_inj 9 Demo.question Demo.d0 _ H1 H2 0)
    as (st' & Hrun & Hlast & _).
  exists st'. split; [exact Hrun | exact Hlast].
Defined.

(** The cycle and the recursion limit, with decimal numerals as
    identifiers. *)
Lemma cycle_is_cut_by_recursion_limit_only_demo :
  ∃ llm : llm_request → llm_reply,
    (∀ req, reply_tool_calls (llm req) ≠ [])
    ∧ ∀ q (d : Demo.DB),
        (∀ k, ∃ st,
           invoke Demo.uuid4 llm Demo.db_tables Demo.db_schema Demo.db_run
             Demo.arg_error (3 + k) q d
           = Ok (At (Nat.iter k next_in_cycle n_generate_query), st))
        ∧ (∀ recursion_limit,
             agent_invoke Demo.uuid4 llm Demo.db_tables Demo.db_schema
               Demo.db_run Demo.arg_error recursion_limit q d
             = Raise GraphRecursionError)
        ∧ ∀ recursion_limit active request,
            active !! QueryRequest.session_id request = Some d →
            QueryRequest.query request = q →
            query_database Demo.uuid4 llm Demo.db_tables Demo.db_schema
              Demo.db_run Demo.arg_error recursion_limit active request
            = HTTPException 500.
Proof.
  exact (cycle_is_cut_by_recursion_limit_only Demo.uuid4 Demo.db_tables
           Demo.db_schema Demo.db_run Demo.arg_error pretty_nat_inj).
Defined.

(** The malformed statement of the scripted run: its error text is the
    tool result and control is back at [generate_query]. *)
Lemma execution_error_demo :
  Demo.invoke 5 = Ok (At n_run_query, Demo.state_at 5)
  ∧ last (messages (Demo.state_at 5))
    = Some (AIMessage ""
              [Demo.query_call "SELEC * FROM orders" "call_check"]
              (Some "6"%string))
  ∧ ∃ st',
      Demo.invoke 6 = Ok (At n_generate_query, st')
      ∧ messages st' !! (length (messages (Demo.state_at 5)) + 0)
        = Some (ToolMessage "Error: near SELEC: syntax error" "sql_db_query"
                  "call_check"
                  (Some (Demo.uuid4 (next_uuid (Demo.state_at 5) + 0)))).
Proof.
  assert (Demo.invoke 5 = Ok (At n_run_query, Demo.state_at 5)) as H1
    by (vm_compute; reflexivity).
  assert (last (messages (Demo.state_at 5))
          = Some (AIMessage ""
                    [Demo.query_call "SELEC * FROM orders" "call_check"]
                    (Some "6"%string))) as H2 by (vm_compute; reflexivity).
  split; [exact H1|]. split; [exact H2|].
  destruct (execution_error_is_fed_back Demo.uuid4 Demo.llm Demo.db_tables
              Demo.db_schema Demo.db_run Demo.arg_error pretty_nat_inj
              5 Demo.question Demo.d0 _ _ _ _ H1 H2)
    as (st' & Hrun & _ & _ & Herr).
  exists st'. split; [exact Hrun|].
  apply (Herr 0 (Demo.query_call "SELEC * FROM orders" "call_check")
           "SELEC * FROM orders"%string Demo.d0
           "near SELEC: syntax error"%string);
    vm_compute; reflexivity.
Defined.


(** The check of the first candidate of the scripted run. *)
Lemma checked_query_demo :
  Demo.invoke 4 = Ok (At n_check_query, Demo.state_at 4)
  ∧ last (messages (Demo.state_at 4))
    = Some (AIMessage ""
              [Demo.query_call "SELEC * FROM orders" "call_gen"]
              (Some "6"%string))
  ∧ step Demo.uuid4 Demo.llm Demo.db_tables Demo.db_schema Demo.db_run
      Demo.arg_error n_check_query (Demo.state_at 4)
    = Ok (At n_run_query, Demo.state_at 5)
  ∧ msg_id <$> last (messages (Demo.state_at 5))
    = Some (Some "6"%string)
  ∧ length (messages (Demo.state_at 5)) = length (messages (Demo.state_at 4)).
Proof.
  assert (Demo.invoke 4 = Ok (At n_check_query, Demo.state_at 4)) as H1
    by (vm_compute; reflexivity).
  assert (last (messages (Demo.state_at 4))
          = Some (AIMessage ""
                    [Demo.query_call "SELEC * FROM orders" "call_gen"]
                    (Some "6"%string))) as H2 by (vm_compute; reflexivity).
  assert (step Demo.uuid4 Demo.llm Demo.db_tables Demo.db_schema Demo.db_run
            Demo.arg_error n_check_query (Demo.state_at 4)
          = Ok (At n_run_query, Demo.state_at 5)) as H3
    by (vm_compute; reflexivity).
  destruct (checked_query_takes_candidate_message_id Demo.uuid4 Demo.llm
              Demo.db_tables Demo.db_schema Demo.db_run Demo.arg_error
              pretty_nat_inj 4 Demo.question Demo.d0 _ _ _ _ H1 H2 H3)
    as (ms & tc & rest & stmt & _ & _ & _ & _ & _ & Hid & Hlen).
  split_all; [exact H1 | exact H2 | exact H3 | exact Hid | exact Hlen].
Defined.

(** The history that the scripted model is sent at its third generation
    is answered. *)
Lemma requests_answered_demo :
  Demo.invoke 9 = Ok (At n_generate_query, Demo.state_at 9)
  ∧ answered (messages (Demo.state_at 9)) = true.
Proof.
  assert (Demo.invoke 9 = Ok (At n_generate_query, Demo.state_at 9)) as H1
    by (vm_compute; reflexivity).
  split; [exact H1|].
  apply (proj1 (requests_answered_when_history_is_sent Demo.uuid4 Demo.llm
                  Demo.db_tables Demo.db_schema Demo.db_run Demo.arg_error
                  pretty_nat_inj 9 Demo.question Demo.d0 _ _ H1)).
  auto.
Defined.

(** The [DELETE] of the scripted run goes to the data source as it is. *)
Lemma executor_demo :
  Demo.invoke 8 = Ok (At n_run_query, Demo.state_at 8)
  ∧ last (messages (Demo.state_at 8))
    = Some (AIMessage ""
              [Demo.query_call "DELETE FROM orders" "call_check"]
              (Some "9"%string))
  ∧ ∃ st',
      Demo.invoke 9 = Ok (At n_generate_query, st')
      ∧ db st'
        = (Demo.db_run (db (Demo.state_at 8)) "DELETE FROM orders").1.
Proof.
  assert (Demo.invoke 8 = Ok (At n_run_query, Demo.state_at 8)) as H1
    by (vm_compute; reflexivity).
  assert (last (messages (Demo.state_at 8))
          = Some (AIMessage ""
                    [Demo.query_call "DELETE FROM orders" "call_check"]
                    (Some "9"%string))) as H2 by (vm_compute; reflexivity).
  split; [exact H1|]. split; [exact H2|].
  destruct (proj1 (executor_runs_every_statement Demo.uuid4 Demo.llm
                     Demo.db_tables Demo.db_schema Demo.db_run Demo.arg_error
                     pretty_nat_inj Demo.row_counts 8 Demo.question Demo.d0
                     _ _ H1) _ _ _ eq_refl H2)
    as (st' & Hrun & Hdb & _).
  exists st'. split; [exact Hrun|]. rewrite Hdb. vm_compute. reflexivity.
Defined.


(** The scripted model is a fixed model. *)
Lemma demo_llm_erase r : Demo.llm (erase_request r) = Demo.llm r.
Proof.
  unfold Demo.llm, erase_request. simpl.
  assert (last (erase_ids (req_messages r))
          = set_id None <$> last (req_messages r)) as -> by apply fmap_last.
  assert (msg_content <$> (set_id None <$> last (req_messages r))
          = msg_content <$> last (req_messages r)) as ->.
  { destruct (last (req_messages r)) as [[]|]; done. }
  assert (length (filter (λ m, Demo.is_query_result m = true)
                    (erase_ids (req_messages r)))
          = length (filter (λ m, Demo.is_query_result m = true)
                      (req_messages r))) as ->; [|done].
  induction (req_messages r) as [|m ms IH]; [done|].
  unfold erase_ids in *. rewrite fmap_cons, !filter_cons.
  assert (Demo.is_query_result (set_id None m) = Demo.is_query_result m) as ->
    by by destruct m.
  case_decide; simpl; by rewrite IH.
Qed.

Lemma demo_llm_fixed : fixed_model Demo.llm.
Proof.
  intros r r' H. by rewrite <- (demo_llm_erase r), H, demo_llm_erase.
Qed.

Lemma other_uuid4_inj : Inj (=) (=) Demo.other_uuid4.
Proof. intros x y H. apply pretty_nat_inj in H. by injection H. Qed.

(** The scripted model puts at most one call in a message. *)
Lemma demo_llm_single req : length (reply_tool_calls (Demo.llm req)) ≤ 1.
Proof.
  unfold Demo.llm. repeat case_decide; simpl; try lia.
  destruct (length (filter _ _)) as [|[|n]]; simpl; lia.
Qed.



(** ** Table names made of sheet names *)

Section TableNamesFacts.
Context {char : Type} `{Countable char}.
Variables space hyphen underscore : char.
Variable isalnum : char → bool.
Context {Data : Type}.
Variable read_excel : list char → option Data.
Variable to_sql_ok : list char → Data → bool.

Abbreviation clean := (clean_table_name space hyphen underscore isalnum).
Abbreviation replacedE := (replaced space hyphen underscore).

Lemma clean_filter s :
  clean s = filter (λ c, isalnum c = true ∨ c = underscore) (replacedE <$> s).
Proof.
  unfold clean_table_name, replace_char, replaced.
  by rewrite <- list_fmap_compose.
Qed.

Lemma replaced_id l :
  Forall (λ c, c ≠ space ∧ c ≠ hyphen) l → replacedE <$> l = l.
Proof.
  induction 1 as [|c l [Hc1 Hc2] _ IH]; [done|].
  rewrite fmap_cons, IH. f_equal. unfold replaced.
  repeat case_decide; congruence.
Qed.

Lemma filter_kept l :
  Forall (λ c, isalnum c = true ∨ c = underscore) l →
  filter (λ c, isalnum c = true ∨ c = underscore) l = l.
Proof.
  induction 1 as [|c l Hc _ IH]; [done|].
  rewrite filter_cons, decide_True by done. by rewrite IH.
Qed.

(** X8: a table name keeps only alphanumeric characters and underscores,
    is never longer than the sheet name, and cleaning it again changes
    nothing. *)
Theorem clean_table_name_is_clean s :
  space ≠ underscore → hyphen ≠ underscore →
  Forall (λ c, isalnum c = true ∨ c = underscore) (clean s)
  ∧ Forall (λ c, c ≠ space ∧ c ≠ hyphen) (clean s)
  ∧ length (clean s) ≤ length s
  ∧ clean (clean s) = clean s.
Proof.
  intros Hs Hh.
  assert (Forall (λ c, c ≠ space ∧ c ≠ hyphen) (clean s)) as Hno.
  { rewrite clean_filter. apply Forall_forall. intros c Hc.
    apply list_elem_of_filter in Hc as [_ Hc].
    apply list_elem_of_fmap in Hc as (c0 & -> & _).
    unfold replaced. repeat case_decide; subst; split; congruence. }
  assert (Forall (λ c, isalnum c = true ∨ c = underscore) (clean s)) as Hok.
  { unfold clean_table_name. apply Forall_forall. intros c Hc.
    by apply list_elem_of_filter in Hc as [Hc _]. }
  split; [exact Hok|]. split; [exact Hno|]. split.
  - rewrite clean_filter. etrans; [apply length_filter|].
    by rewrite length_fmap.
  - rewrite (clean_filter (clean s)), (replaced_id _ Hno).
    by apply filter_kept.
Qed.

(** X9: spaces, hyphens and underscores are not told apart: two sheet
    names that differ only in which of these three stands at a position
    get the same table name. *)
Theorem separators_give_same_table_name s1 s2 :
  Forall2 (λ a b, a = b
                  ∨ ((a = space ∨ a = hyphen ∨ a = underscore)
                     ∧ (b = space ∨ b = hyphen ∨ b = underscore))) s1 s2 →
  clean s1 = clean s2.
Proof.
  intros Hall. rewrite !clean_filter. f_equal.
  induction Hall as [|a b l1 l2 Hab _ IH]; [done|].
  rewrite !fmap_cons, IH. f_equal. unfold replaced.
  destruct Hab as [->|[Ha Hb]]; [done|].
  repeat case_decide; destruct Ha as [?|[?|?]], Hb as [?|[?|?]]; congruence.
Qed.

Abbreviation write_sheetsE :=
  (write_sheets space hyphen underscore isalnum read_excel to_sql_ok).

Lemma write_sheets_lookup conn names tables t :
  write_sheetsE conn names = Some tables →
  tables !! t
  = match last (filter (λ n, clean n = t) names) with
    | Some n => read_excel n
    | None => conn !! t
    end.
Proof.
  revert conn. induction names as [|n names IH]; intros conn Hw; simpl in Hw.
  - by injection Hw as <-.
  - destruct (read_excel n) as [df|] eqn:Hread; [|done].
    destruct (to_sql_ok (clean n) df); [|done].
    rewrite (IH _ Hw), filter_cons.
    destruct (last (filter (λ n0, clean n0 = t) names)) as [n'|] eqn:Hlast.
    + case_decide; [|by rewrite Hlast].
      rewrite last_cons, Hlast. done.
    + case_decide as Hn.
      * rewrite last_cons, Hlast. subst t. by rewrite lookup_insert_eq.
      * rewrite Hlast. by rewrite lookup_insert_ne.
Qed.

(** X10: when [excel_to_sqlite] succeeds, the table of a name holds the
    sheet that comes last among those whose cleaned name it is, and there
    is no table for a name that no sheet cleans to: sheets whose names
    clean to the same table name overwrite one another. *)
Theorem excel_to_sqlite_keeps_last_sheet names tables t :
  excel_to_sqlite space hyphen underscore isalnum read_excel to_sql_ok
    (Some names) = Http200 tables →
  tables !! t = last (filter (λ n, clean n = t) names) ≫= read_excel.
Proof.
  unfold excel_to_sqlite.
  destruct (write_sheetsE ∅ names) as [tables'|] eqn:Hw; [|done].
  intros [= <-]. rewrite (write_sheets_lookup _ _ _ t Hw).
  by destruct (last _).
Qed.
End TableNamesFacts.


(** ** Sessions: upload, information, cleanup *)

Section HandlersFacts.
Context {DB Content Data : Type} {char : Type} `{Countable char}.
Variables space hyphen underscore : char.
Variable isalnum : char → bool.
Variable save : string → Content → bool.
Variable sheet_names : Content → option (list (list char)).
Variable read_excel : Content → list char → option Data.
Variable to_sql_ok : list char → Data → bool.
Variable agent_of_tables : gmap (list char) Data → option DB.
Variable agent_of_file : Content → option DB.
Abbreviation upload_excelE :=
  (upload_excel space hyphen underscore isalnum save sheet_names read_excel
     to_sql_ok agent_of_tables).
Abbreviation upload_databaseE := (upload_database save agent_of_file).
Abbreviation excel_to_sqliteE content :=
  (excel_to_sqlite space hyphen underscore isalnum (read_excel content)
     to_sql_ok (sheet_names content)).

(** X11: [upload_excel] answers 400 exactly when the file name has neither
    extension; every other failure is answered 500, a failed conversion
    included, although [excel_to_sqlite] raises it with status 400; and an
    upload that fails registers no session. *)
Theorem upload_excel_failure_statuses
    (srv : server DB) filename content session_id mkdtemp :
  let r := upload_excelE srv filename content session_id mkdtemp in
  (r.2 = HTTPException 400
   ↔ endswith_any filename [".xlsx"; ".xls"]%string = false)
  ∧ (∀ code, r.2 = HTTPException code →
       (code = 400 ∨ code = 500)
       ∧ active_databases r.1 = active_databases srv)
  ∧ (∀ dir code,
       endswith_any filename [".xlsx"; ".xls"]%string = true →
       mkdtemp = Some dir →
       save (path_join dir filename) content = true →
       excel_to_sqliteE content = HTTPException code →
       code = 400 ∧ r.2 = HTTPException 500).
Proof using Type.
  unfold upload_excel.
  destruct (endswith_any filename _) eqn:Hext; simpl.
  - destruct mkdtemp as [dir|]; simpl.
    + destruct (save _ content) eqn:Hsave; simpl.
      * destruct (excel_to_sqliteE content) as [tables|c] eqn:Hconv.
        -- destruct (agent_of_tables tables);
             (split; [by split|]); (split; [by intros ? [= <-]; auto|]);
             by intros ?? _ _ _ ?.
        -- split; [by split|]. split; [by intros ? [= <-]; auto|].
           intros dir' code _ _ _ [= <-]. split; [|done].
           unfold excel_to_sqlite in Hconv.
           destruct (sheet_names content) as [names|];
             [|by injection Hconv as <-].
           destruct (write_sheets _ _ _ _ _ _ _ _); [done|].
           by injection Hconv as <-.
      * split; [by split|]. split; [by intros ? [= <-]; auto|].
        intros dir' code _ [= <-]. by rewrite Hsave.
    + split; [by split|]. split; [by intros ? [= <-]; auto|].
      by intros ?? _ ?.
  - split; [by split|]. split; [by intros ? [= <-]; auto|].
    by intros ?? ?.
Qed.

(** X12: after an upload that is answered 200, of either kind, the answer
    names the session, the session answers [get_session_info] with the
    uploaded file name and status [active], its directory is the one just
    made, the file name has one of the extensions, and the other sessions
    are as they were. *)
Theorem upload_registers_session
    (srv srv' : server DB) filename content session_id mkdtemp r :
  upload_databaseE srv filename content session_id mkdtemp
    = (srv', Http200 r)
  ∨ upload_excelE srv filename content session_id mkdtemp
    = (srv', Http200 r) →
  upload_session_id r = session_id
  ∧ get_session_info srv' session_id
    = Http200 (MkSessionInfo session_id filename "active")
  ∧ (∃ s, active_databases srv' !! session_id = Some s
          ∧ mkdtemp = Some (temp_dir s)
          ∧ temp_dir s ∈ temp_dirs srv')
  ∧ endswith_any filename
      [".db"; ".sqlite"; ".sqlite3"; ".xlsx"; ".xls"]%string = true
  ∧ ∀ other, other ≠ session_id →
      active_databases srv' !! other = active_databases srv !! other.
Proof using Type.
  intros [Hup|Hup].
  - unfold upload_database in Hup.
    destruct (endswith_any filename _) eqn:Hext; [|done]. simpl in Hup.
    destruct mkdtemp as [dir|]; [|done]. simpl in Hup.
    destruct (save _ content); [|done]. simpl in Hup.
    destruct (agent_of_file content) as [a|]; [|done].
    injection Hup as <- <-. unfold get_session_info. simpl.
    rewrite lookup_insert_eq. split_all; try done.
    + eexists. split; [done|]. split; [done|]. simpl. set_solver.
    + unfold endswith_any in *. simpl in *.
      repeat (apply orb_true_iff in Hext as [Hext|Hext]);
        rewrite ?Hext, ?orb_true_r; done.
    + intros other Hne. by rewrite lookup_insert_ne.
  - unfold upload_excel in Hup.
    destruct (endswith_any filename _) eqn:Hext; [|done]. simpl in Hup.
    destruct mkdtemp as [dir|]; [|done]. simpl in Hup.
    destruct (save _ content); [|done]. simpl in Hup.
    destruct (excel_to_sqliteE content) as [tables|]; [|done].
    destruct (agent_of_tables tables) as [a|]; [|done].
    injection Hup as <- <-. unfold get_session_info. simpl.
    rewrite lookup_insert_eq. split_all; try done.
    + eexists. split; [done|]. split; [done|]. simpl. set_solver.
    + unfold endswith_any in *. simpl in *.
      repeat (apply orb_true_iff in Hext as [Hext|Hext]);
        rewrite ?Hext, ?orb_true_r; done.
    + intros other Hne. by rewrite lookup_insert_ne.
Qed.

(** Whether the removal of a directory goes through. *)
Variable rmtree_ok : string → bool.

Abbreviation cleanup_sessionE := (cleanup_session rmtree_ok).

(** X13: after a cleanup that is answered 200, the session is unknown: its
    information, a second cleanup and a query on it are answered 404, and
    the other sessions are as they were.  The directory of the session is
    no longer among the temporary directories when its removal went
    through; when the removal failed, the failure is ignored: the answer
    is 200 all the same and every temporary directory is still there. *)
Theorem cleanup_forgets_session (srv srv' : server DB) session_id message :
  cleanup_sessionE srv session_id = (srv', Http200 message) →
  get_session_info srv' session_id = HTTPException 404
  ∧ cleanup_sessionE srv' session_id = (srv', HTTPException 404)
  ∧ (∀ uuid4 llm db_tables db_schema db_run arg_error recursion_limit
       question,
       query_database uuid4 llm db_tables db_schema db_run arg_error
         recursion_limit (agent <$> active_databases srv')
         (QueryRequest.Make question session_id)
       = HTTPException 404)
  ∧ (∃ s, active_databases srv !! session_id = Some s
          ∧ (rmtree_ok (temp_dir s) = true → temp_dir s ∉ temp_dirs srv')
          ∧ (rmtree_ok (temp_dir s) = false →
             temp_dirs srv' = temp_dirs srv))
  ∧ ∀ other, other ≠ session_id →
      active_databases srv' !! other = active_databases srv !! other.
Proof using Type.
  unfold cleanup_session, get_session_info.
  destruct (active_databases srv !! session_id) as [s|] eqn:Hs; [|done].
  intros [= <- <-]. simpl. rewrite lookup_delete_eq. split_all; try done.
  - intros. unfold query_database. simpl.
    by rewrite lookup_fmap, lookup_delete_eq.
  - exists s. split; [done|]. split; intros ->; [|done].
    rewrite elem_of_difference.
    intros [_ Hn]. apply Hn. by apply elem_of_singleton.
  - intros other Hne. by rewrite lookup_delete_ne.
Qed.

(** X14: an upload that fails after its temporary directory was made
    leaves the directory behind: it registers no session, and when no
    session uses that directory, no cleanup of any session removes it. *)
Theorem failed_upload_leaves_directory
    (srv srv' : server DB) filename content session_id dir :
  upload_databaseE srv filename content session_id (Some dir)
    = (srv', HTTPException 500)
  ∨ upload_excelE srv filename content session_id (Some dir)
    = (srv', HTTPException 500) →
  dir ∈ temp_dirs srv'
  ∧ active_databases srv' = active_databases srv
  ∧ ((∀ sid s, active_databases srv !! sid = Some s → temp_dir s ≠ dir) →
     ∀ sid, dir ∈ temp_dirs (cleanup_sessionE srv' sid).1).
Proof using Type.
  intros Hup.
  assert (dir ∈ temp_dirs srv'
          ∧ active_databases srv' = active_databases srv) as [Hdir Hact].
  { destruct Hup as [Hup|Hup].
    - unfold upload_database in Hup.
      destruct (endswith_any filename _); [|done]. simpl in Hup.
      destruct (save _ content); simpl in Hup.
      + destruct (agent_of_file content); [done|].
        injection Hup as <-. simpl. split; [set_solver | done].
      + injection Hup as <-. simpl. split; [set_solver | done].
    - unfold upload_excel in Hup.
      destruct (endswith_any filename _); [|done]. simpl in Hup.
      destruct (save _ content); simpl in Hup.
      + destruct (excel_to_sqliteE content) as [tables|].
        * destruct (agent_of_tables tables); [done|].
          injection Hup as <-. simpl. split; [set_solver | done].
        * injection Hup as <-. simpl. split; [set_solver | done].
      + injection Hup as <-. simpl. split; [set_solver | done]. }
  split; [exact Hdir|]. split; [exact Hact|].
  intros Hfree sid. unfold cleanup_session. rewrite Hact.
  destruct (active_databases srv !! sid) as [s|] eqn:Hs; simpl; [|done].
  specialize (Hfree sid s Hs). destruct (rmtree_ok _); [set_solver | done].
Qed.
End HandlersFacts.


(** ** The further properties at concrete inputs *)

(** The model without arguments: its first candidate stops the run. *)
Lemma agent_invoke_raises_key_or_recursion_error_demo :
  agent_invoke Demo.uuid4 NoQuery.llm Demo.db_tables Demo.db_schema
    Demo.db_run Demo.arg_error 25 Demo.question Demo.d0
  = Raise KeyError
  ∧ ((KeyError = KeyError
      ∧ ∃ j st c tc rest i,
          j < 25
          ∧ NoQuery.run_to j = Ok (At n_check_query, st)
          ∧ last (messages st) = Some (AIMessage c (tc :: rest) i)
          ∧ tc_args tc !! "query" = None)
     ∨ (KeyError = GraphRecursionError
        ∧ ∃ n st, NoQuery.run_to 25 = Ok (At n, st))).
Proof.
  assert (agent_invoke Demo.uuid4 NoQuery.llm Demo.db_tables Demo.db_schema
            Demo.db_run Demo.arg_error 25 Demo.question
            Demo.d0
          = Raise KeyError) as H1 by (vm_compute; reflexivity).
  split; [exact H1|].
  exact (agent_invoke_raises_key_or_recursion_error Demo.uuid4 NoQuery.llm
           Demo.db_tables Demo.db_schema Demo.db_run Demo.arg_error
           pretty_nat_inj 25 Demo.question Demo.d0
           KeyError H1).
Defined.

Lemma candidate_without_query_gives_500_demo :
  NoQuery.run_to 4 = Ok (At n_check_query, NoQuery.state_at 4)
  ∧ NoQuery.run_to 7 = Raise KeyError
  ∧ query_database Demo.uuid4 NoQuery.llm Demo.db_tables Demo.db_schema
      Demo.db_run Demo.arg_error 25
      {["s1"%string := Demo.d0]} (QueryRequest.Make Demo.question "s1")
    = HTTPException 500
  ∧ query_database Demo.uuid4 NoQuery.llm Demo.db_tables Demo.db_schema
      Demo.db_run Demo.arg_error 2
      {["s1"%string := Demo.d0]} (QueryRequest.Make Demo.question "s1")
    = HTTPException 500.
Proof.
  assert (NoQuery.run_to 4 = Ok (At n_check_query, NoQuery.state_at 4)) as H1
    by (vm_compute; reflexivity).
  destruct (candidate_without_query_gives_500 Demo.uuid4 NoQuery.llm
              Demo.db_tables Demo.db_schema Demo.db_run Demo.arg_error
              4 Demo.question Demo.d0 (NoQuery.state_at 4) ""
              (ToolCall "sql_db_query" ∅ "call_x") [] (Some "6"%string)
              H1 ltac:(vm_compute; reflexivity) ltac:(vm_compute; reflexivity))
    as (_ & Hrun & H500).
  split_all; [exact H1 | exact (proj1 (Hrun 7 ltac:(lia))) | |];
    apply H500; vm_compute; reflexivity.
Defined.

(** Before the first execution of the scripted run the data source is
    the initial one. *)
Lemma data_source_changes_only_in_run_query_demo :
  Demo.invoke 5 = Ok (At n_run_query, Demo.state_at 5)
  ∧ (n_run_query ∉ nodes_of (log (Demo.state_at 5)))
  ∧ db (Demo.state_at 5) = Demo.d0.
Proof.
  assert (Demo.invoke 5 = Ok (At n_run_query, Demo.state_at 5)) as H1
    by (vm_compute; reflexivity).
  assert (n_run_query ∉ nodes_of (log (Demo.state_at 5))) as H2.
  { assert (nodes_of (log (Demo.state_at 5))
            = [n_list_tables; n_call_get_schema; n_get_schema;
               n_generate_query; n_check_query]) as ->
      by (vm_compute; reflexivity).
    intros Hin. apply list_elem_of_In in Hin. simpl in Hin.
    intuition discriminate. }
  split_all; [exact H1 | exact H2 |].
  exact (data_source_changes_only_in_run_query Demo.uuid4 Demo.llm
           Demo.db_tables Demo.db_schema Demo.db_run Demo.arg_error
           pretty_nat_inj 5 Demo.question Demo.d0 _ _ H1 H2).
Defined.

(** A candidate with two calls, the first under another name: the text
    of the first is checked and run, the [DELETE] of the second never
    is. *)
Lemma only_first_query_demo :
  TwoCalls.run_to 4 = Ok (At n_check_query, TwoCalls.state_at 4)
  ∧ last (messages (TwoCalls.state_at 4))
    = Some (AIMessage "" TwoCalls.candidate (Some "6"%string))
  ∧ ∃ st',
      TwoCalls.run_to (4 + 2) = Ok (At n_generate_query, st')
      ∧ model_calls_of (log st')
        = model_calls_of (log (TwoCalls.state_at 4))
            ++ [check_request "SELECT name FROM customers LIMIT 5"]
      ∧ tool_invocations_of (log st')
        = tool_invocations_of (log (TwoCalls.state_at 4))
            ++ [(sql_db_query,
                 Demo.query_call "SELECT name FROM customers LIMIT 5"
                   "call_check",
                 Demo.d0)]
      ∧ db st' = Demo.d0.
Proof.
  assert (TwoCalls.run_to 4 = Ok (At n_check_query, TwoCalls.state_at 4))
    as H1 by (vm_compute; reflexivity).
  assert (last (messages (TwoCalls.state_at 4))
          = Some (AIMessage "" TwoCalls.candidate (Some "6"%string))) as H2
    by (vm_compute; reflexivity).
  split; [exact H1|]. split; [exact H2|].
  destruct (only_first_query_of_candidate_is_used Demo.uuid4 TwoCalls.llm
              Demo.db_tables Demo.db_schema Demo.db_run Demo.arg_error
              pretty_nat_inj 4 Demo.question Demo.d0 (TwoCalls.state_at 4) ""
              (ToolCall "lookup"
                 {["query"%string
                   := "SELECT name FROM customers LIMIT 5"%string]}
                 "call_1")
              [Demo.query_call "DELETE FROM orders" "call_2"]
              (Some "6"%string) "SELECT name FROM customers LIMIT 5" H1 H2
              ltac:(vm_compute; reflexivity))
    as (st' & Hrun & Hcalls & Htools & Hdb).
  exists st'. split_all; [exact Hrun | exact Hcalls | |].
  - rewrite Htools. f_equal.
  - rewrite Hdb. vm_compute. reflexivity.
Defined.

Lemma message_ids_are_distinct_demo :
  Demo.invoke 10 = Ok (END, Demo.state_at 10)
  ∧ NoDup (msg_id <$> messages (Demo.state_at 10)).
Proof.
  assert (Demo.invoke 10 = Ok (END, Demo.state_at 10)) as H1
    by (vm_compute; reflexivity).
  split; [exact H1|].
  exact (proj2 (message_ids_are_distinct Demo.uuid4 Demo.llm Demo.db_tables
                  Demo.db_schema Demo.db_run Demo.arg_error pretty_nat_inj
                  10 Demo.question Demo.d0 _ _ H1)).
Defined.

Lemma history_is_kept_demo :
  Demo.invoke 4 = Ok (At n_check_query, Demo.state_at 4)
  ∧ Demo.invoke (4 + 6) = Ok (END, Demo.state_at 10)
  ∧ length (messages (Demo.state_at 4)) ≤ length (messages (Demo.state_at 10))
  ∧ messages (Demo.state_at 10) !! 0 = messages (Demo.state_at 4) !! 0.
Proof.
  assert (Demo.invoke 4 = Ok (At n_check_query, Demo.state_at 4)) as H1
    by (vm_compute; reflexivity).
  assert (Demo.invoke (4 + 6) = Ok (END, Demo.state_at 10)) as H2
    by (vm_compute; reflexivity).
  destruct (history_is_kept Demo.uuid4 Demo.llm Demo.db_tables Demo.db_schema
              Demo.db_run Demo.arg_error pretty_nat_inj 4 6 Demo.question
              Demo.d0 _ _ _ _ H1 H2) as [Hlen Hkeep].
  split_all; [exact H1 | exact H2 | exact Hlen |].
  apply Hkeep. vm_compute. lia.
Defined.



(** A sheet name with spaces, a hyphen and punctuation. *)
Lemma clean_table_name_demo :
  Uploads.clean (Uploads.chars "Q1 sales-2024 (v2)!")
  = Uploads.chars "Q1_sales_2024_v2"
  ∧ Uploads.clean (Uploads.clean (Uploads.chars "Q1 sales-2024 (v2)!"))
    = Uploads.clean (Uploads.chars "Q1 sales-2024 (v2)!").
Proof.
  split; [vm_compute; reflexivity|].
  apply (clean_table_name_is_clean Uploads.space Uploads.hyphen
           Uploads.underscore Uploads.isalnum
           (Uploads.chars "Q1 sales-2024 (v2)!"));
    vm_compute; discriminate.
Defined.

Lemma separators_give_same_table_name_demo :
  Uploads.clean (Uploads.chars "Q1 sales")
  = Uploads.clean (Uploads.chars "Q1-sales").
Proof.
  apply (separators_give_same_table_name Uploads.space Uploads.hyphen
           Uploads.underscore Uploads.isalnum).
  unfold Uploads.chars. simpl.
  repeat (constructor; [first [by left | right; unfold Uploads.space,
                                 Uploads.hyphen; simpl; by auto]|]).
  constructor.
Defined.

(** The first and the third sheet of the workbook both become the table
    [Q1_sales]; it holds the third. *)
Lemma excel_to_sqlite_keeps_last_sheet_demo :
  excel_to_sqlite Uploads.space Uploads.hyphen Uploads.underscore
    Uploads.isalnum Uploads.read_sheet Uploads.to_sql_ok
    (Some Uploads.workbook) = Http200 Uploads.tables
  ∧ Uploads.tables !! Uploads.chars "Q1_sales" = Some 3
  ∧ size Uploads.tables = 2.
Proof.
  assert (excel_to_sqlite Uploads.space Uploads.hyphen Uploads.underscore
            Uploads.isalnum Uploads.read_sheet Uploads.to_sql_ok
            (Some Uploads.workbook) = Http200 Uploads.tables) as H1
    by (vm_compute; reflexivity).
  split_all; [exact H1 | | vm_compute; reflexivity].
  rewrite (excel_to_sqlite_keeps_last_sheet _ _ _ _ _ _ _ _
             (Uploads.chars "Q1_sales") H1).
  vm_compute. reflexivity.
Defined.

(** A workbook that cannot be read: the conversion raises with status
    400, the upload answers 500. *)
Lemma upload_excel_failure_statuses_demo :
  excel_to_sqlite Uploads.space Uploads.hyphen Uploads.underscore
    Uploads.isalnum (Uploads.read_excel "garbage") Uploads.to_sql_ok
    (Uploads.sheet_names "garbage") = HTTPException 400
  ∧ (Uploads.excel Uploads.no_sessions "book.xlsx" "garbage" "s1"
       (Some "/tmp/a"%string)).2 = HTTPException 500.
Proof.
  assert (excel_to_sqlite Uploads.space Uploads.hyphen Uploads.underscore
            Uploads.isalnum (Uploads.read_excel "garbage") Uploads.to_sql_ok
            (Uploads.sheet_names "garbage") = HTTPException 400) as H1
    by (vm_compute; reflexivity).
  split; [exact H1|].
  apply (proj2 (proj2 (upload_excel_failure_statuses Uploads.space
                         Uploads.hyphen Uploads.underscore Uploads.isalnum
                         Uploads.save Uploads.sheet_names Uploads.read_excel
                         Uploads.to_sql_ok Uploads.agent_of_tables
                         Uploads.no_sessions "book.xlsx" "garbage" "s1"
                         (Some "/tmp/a"%string)))
           "/tmp/a"%string 400);
    [vm_compute; reflexivity | reflexivity | reflexivity | exact H1].
Defined.

Lemma upload_registers_session_demo :
  get_session_info Uploads.one_session "s2"
  = Http200 (MkSessionInfo "s2" "data.sqlite3" "active").
Proof.
  destruct (Uploads.database Uploads.no_sessions "data.sqlite3" "database"
              "s2" (Some "/tmp/b"%string)) as [srv' [r|code]] eqn:Hup;
    [|by vm_compute in Hup].
  assert (srv' = Uploads.one_session) as <-.
  { unfold Uploads.one_session. by rewrite Hup. }
  apply (upload_registers_session Uploads.space Uploads.hyphen
           Uploads.underscore Uploads.isalnum Uploads.save
           Uploads.sheet_names Uploads.read_excel Uploads.to_sql_ok
           Uploads.agent_of_tables Uploads.agent_of_file
           Uploads.no_sessions srv' "data.sqlite3" "database" "s2"
           (Some "/tmp/b"%string) r).
  left. exact Hup.
Defined.

Lemma cleanup_forgets_session_demo :
  (cleanup_session Uploads.rmtree_ok Uploads.one_session "s2").2
  = Http200 "Session s2 cleaned up successfully"%string
  ∧ get_session_info
      (cleanup_session Uploads.rmtree_ok Uploads.one_session "s2").1 "s2"
    = HTTPException 404
  ∧ temp_dirs (cleanup_session Uploads.rmtree_ok Uploads.one_session "s2").1
    = temp_dirs Uploads.one_session.
Proof.
  destruct (cleanup_session Uploads.rmtree_ok Uploads.one_session "s2")
    as [srv' [m|code]] eqn:Hclean; [|by vm_compute in Hclean].
  destruct (cleanup_forgets_session Uploads.rmtree_ok _ _ _ _ Hclean)
    as (Hinfo & _ & _ & (s & Hs & _ & Hkept) & _).
  split_all; [| exact Hinfo |].
  - apply (f_equal snd) in Hclean. vm_compute in Hclean.
    by injection Hclean as <-.
  - apply Hkept. vm_compute in Hs. injection Hs as <-.
    vm_compute. reflexivity.
Defined.

(** An upload whose bytes are no database: the directory stays. *)
Lemma failed_upload_leaves_directory_demo :
  (Uploads.database Uploads.no_sessions "data.db" "corrupt" "s3"
     (Some "/tmp/c"%string)).2 = HTTPException 500
  ∧ "/tmp/c"%string
    ∈ temp_dirs (Uploads.database Uploads.no_sessions "data.db" "corrupt"
                   "s3" (Some "/tmp/c"%string)).1.
Proof.
  split; [vm_compute; reflexivity|].
  apply (failed_upload_leaves_directory Uploads.space Uploads.hyphen
           Uploads.underscore Uploads.isalnum Uploads.save
           Uploads.sheet_names Uploads.read_excel Uploads.to_sql_ok
           Uploads.agent_of_tables Uploads.agent_of_file Uploads.rmtree_ok
           Uploads.no_sessions _ "data.db" "corrupt" "s3" "/tmp/c").
  left. vm_compute. reflexivity.
Defined.
